(** * Package registry: search handler and dataset validation

    A shallow embedding of the registry's search endpoint
    ([searchHandler], [getPackageOutput]) and of the dataset loader
    ([NewDataset], [DataSet.Validate]).  Go maps are finite maps
    ([gmap]); the order in which [range] walks a map is left open and
    passed around as a [MapRange].  Errors are values of a result
    type. *)

From Stdlib Require Import Ascii NArith.
From stdpp Require Import base option list gmap fin_maps strings sorting.

Local Open Scope N_scope.
Local Open Scope stdpp_scope.

(** ** Results of fallible calls *)

Inductive result (E A : Type) : Type :=
  | Ok (a : A)
  | Err (e : E).
Arguments Ok {E A} a.
Arguments Err {E A} e.

(** ** Strings: the helpers of package [strings] the code calls *)

Module Strings.

(** [strings.Contains(s, substr)]. *)
Fixpoint Contains (s substr : string) : bool :=
  String.prefix substr s ||
  match s with
  | EmptyString => false
  | String _ s' => Contains s' substr
  end.

(** The bytes of [s] up to the first [sep], and what follows it. *)
Fixpoint Cut (s : string) (sep : ascii) : string * option string :=
  match s with
  | EmptyString => (EmptyString, None)
  | String c s' =>
      if Ascii.eqb c sep then (EmptyString, Some s')
      else let '(a, b) := Cut s' sep in (String c a, b)
  end.

(** [strings.Split(s, sep)] for a one-byte separator. *)
Fixpoint Split (s : string) (sep : ascii) : list string :=
  match s with
  | EmptyString => [EmptyString]
  | String c s' =>
      if Ascii.eqb c sep then EmptyString :: Split s' sep
      else match Split s' sep with
           | [] => [String c EmptyString]
           | p :: ps => String c p :: ps
           end
  end.

(** Does byte [c] occur in [s]? *)
Fixpoint HasByte (c : ascii) (s : string) : bool :=
  match s with
  | EmptyString => false
  | String c' s' => Ascii.eqb c' c || HasByte c s'
  end.

Fixpoint All (f : ascii → bool) (s : string) : bool :=
  match s with
  | EmptyString => true
  | String c s' => f c && All f s'
  end.

End Strings.

(** ** Semantic versions (github.com/blang/semver)

    The handler parses the [kibana] parameter with [semver.New] and
    packages are compared by their parsed versions.  The library is not
    part of the repository; it is modelled after the semantic-versioning
    rules it implements: a [Major.Minor.Patch] triple of unsigned 64-bit
    numbers, optional pre-release identifiers after [-], optional build
    identifiers after [+]. *)

Module semver.

Inductive PRVersion : Type :=
  | PRNum (n : N)
  | PRStr (s : string).

Record Version : Type := {
  Major : N;
  Minor : N;
  Patch : N;
  Pre : list PRVersion;
  Build : list string
}.

Definition is_digit (c : ascii) : bool :=
  let n := N_of_ascii c in (48 <=? n) && (n <=? 57).

Definition is_alphanum (c : ascii) : bool :=
  let n := N_of_ascii c in
  is_digit c || ((65 <=? n) && (n <=? 90)) || ((97 <=? n) && (n <=? 122))
  || (n =? 45).

Fixpoint digits (acc : N) (s : string) : N :=
  match s with
  | EmptyString => acc
  | String c s' => digits (10 * acc + (N_of_ascii c - 48)) s'
  end.

Definition hasLeadingZeroes (s : string) : bool :=
  match s with
  | String "0" (String _ _) => true
  | _ => false
  end.

(** A numeric component: digits only, no leading zero, below 2^64. *)
Definition parseNumber (s : string) : option N :=
  match s with
  | EmptyString => None
  | _ =>
      if Strings.All is_digit s && negb (hasLeadingZeroes s) then
        let n := digits 0 s in
        if n <? 2 ^ 64 then Some n else None
      else None
  end.

Definition NewPRVersion (s : string) : option PRVersion :=
  match s with
  | EmptyString => None
  | _ =>
      if Strings.All is_digit s then
        if hasLeadingZeroes s then None else PRNum <$> parseNumber s
      else if Strings.All is_alphanum s then Some (PRStr s)
      else None
  end.

Definition NewBuildVersion (s : string) : option string :=
  match s with
  | EmptyString => None
  | _ => if Strings.All is_alphanum s then Some s else None
  end.

(** [semver.New] / [semver.Parse]. *)
Definition New (s : string) : option Version :=
  match Strings.Cut s "." with
  | (major, Some rest) =>
      match Strings.Cut rest "." with
      | (minor, Some patchStr) =>
          let '(patchStr, build) := Strings.Cut patchStr "+" in
          let '(patchStr, pre) := Strings.Cut patchStr "-" in
          ma ← parseNumber major;
          mi ← parseNumber minor;
          pa ← parseNumber patchStr;
          prs ← match pre with
                | Some p => mapM NewPRVersion (Strings.Split p ".")
                | None => Some []
                end;
          bs ← match build with
               | Some b => mapM NewBuildVersion (Strings.Split b ".")
               | None => Some []
               end;
          Some {| Major := ma; Minor := mi; Patch := pa;
                  Pre := prs; Build := bs |}
      | (_, None) => None
      end
  | (_, None) => None
  end.

Definition comparePR (a b : PRVersion) : comparison :=
  match a, b with
  | PRNum x, PRNum y => N.compare x y
  | PRNum _, PRStr _ => Lt
  | PRStr _, PRNum _ => Gt
  | PRStr x, PRStr y => String.compare x y
  end.

Fixpoint comparePre (l1 l2 : list PRVersion) : comparison :=
  match l1, l2 with
  | [], [] => Eq
  | [], _ :: _ => Lt
  | _ :: _, [] => Gt
  | a :: l1', b :: l2' =>
      match comparePR a b with
      | Eq => comparePre l1' l2'
      | c => c
      end
  end.

(** [Version.Compare]: major, minor, patch, then the pre-release
    identifiers; a version with a pre-release tag comes before the
    same triple without one.  Build identifiers are ignored. *)
Definition Compare (v o : Version) : comparison :=
  match N.compare (Major v) (Major o) with
  | Eq =>
      match N.compare (Minor v) (Minor o) with
      | Eq =>
          match N.compare (Patch v) (Patch o) with
          | Eq =>
              match Pre v, Pre o with
              | [], [] => Eq
              | [], _ :: _ => Gt
              | _ :: _, [] => Lt
              | l1, l2 => comparePre l1 l2
              end
          | c => c
          end
      | c => c
      end
  | c => c
  end.

Definition GT (v o : Version) : bool :=
  match Compare v o with Gt => true | _ => false end.

(** [semver.Range]: a predicate on versions. *)
Definition Range : Type := Version → bool.

End semver.

(** ** [strconv.ParseBool] *)

Module strconv.

Inductive NumError : Type := ErrSyntax (s : string).

(** Accepts 1, t, T, TRUE, true, True, 0, f, F, FALSE, false, False;
    any other value yields [false] together with an error. *)
Definition ParseBool (str : string) : bool * option NumError :=
  if bool_decide (str ∈ ["1"; "t"; "T"; "true"; "TRUE"; "True"])
  then (true, None)
  else if bool_decide (str ∈ ["0"; "f"; "F"; "false"; "FALSE"; "False"])
  then (false, None)
  else (false, Some (ErrSyntax str)).

End strconv.

(** ** [url.Values] *)

Module url.

Abbreviation Values := (gmap string (list string)).

(** [Values.Get]: the first value stored under [key], or the empty
    string when there is none. *)
Definition Get (v : Values) (key : string) : string :=
  match v !! key with
  | Some (x :: _) => x
  | _ => EmptyString
  end.

End url.

(** ** Packages *)

(** Modelled from the spec: the [util.Package] type is declared
    outside the files at hand, like its methods [IsNewer],
    [HasCategory] and [HasKibanaVersion] below.  The handler uses
    [Name] and [Version] as strings (they key the nested map), the
    comparator works on the parsed version, and [NewDataset] reads
    [BasePath]. *)
Record Package : Type := {
  Name : string;
  Version : string;
  versionSemVer : semver.Version;
  Title : option string;
  Description : string;
  Type_ : string;
  Categories : list string;
  KibanaVersions : option semver.Range;
  Internal : bool;
  Icons : option (list string);
  BasePath : string
}.

(** Modelled from the spec: [isNewer(a, b)] is [compare(a, b) == GREATER]. *)
Definition IsNewer (p pp : Package) : bool :=
  semver.GT (versionSemVer p) (versionSemVer pp).

(** Modelled from the spec: the category set of the package contains
    the queried category. *)
Definition HasCategory (p : Package) (category : string) : bool :=
  bool_decide (category ∈ Categories p).

(** Modelled from the spec: the constraint is empty or is satisfied by
    the queried platform version. *)
Definition HasKibanaVersion (p : Package) (version : semver.Version) : bool :=
  match KibanaVersions p with
  | None => true
  | Some r => r version
  end.

(** The zero value of the struct, which Go yields for a missing key. *)
Definition zeroVersion : semver.Version :=
  {| semver.Major := 0; semver.Minor := 0; semver.Patch := 0;
     semver.Pre := []; semver.Build := [] |}.

Definition zeroPackage : Package :=
  {| Name := EmptyString; Version := EmptyString;
     versionSemVer := zeroVersion; Title := None;
     Description := EmptyString; Type_ := EmptyString; Categories := [];
     KibanaVersions := None; Internal := false; Icons := None;
     BasePath := EmptyString |}.

(** ** Iterating over a Go map

    [range] over a map visits every key once, in an order the language
    leaves unspecified and that may change from one loop to the next.
    A [MapRange] fixes one such order for every map; nothing below
    depends on which. *)

Class MapRange : Type := {
  range : ∀ {A : Type}, gmap string A → list string;
  range_perm : ∀ (A : Type) (m : gmap string A), range m ≡ₚ (map_to_list m).*1
}.

(** The order in which the keys lie in the underlying trie. *)
#[refine] Instance trie_range : MapRange := {|
  range A m := (map_to_list m).*1
|}.
Proof. reflexivity. Defined.

(** [map[string]map[string]util.Package] *)
Abbreviation PackagesList := (gmap string (gmap string Package)).

(** The projection of a package that the endpoint returns; a field of
    type [option] stands for a key that may be absent from the JSON
    object. *)
Record OutputRecord : Type := {
  r_name : string;
  r_description : string;
  r_version : string;
  r_type : string;
  r_download : string;
  r_path : string;
  r_title : option string;
  r_icons : option (list string);
  r_internal : option bool
}.

(** The local variables the query parameters are read into. *)
Record Params : Type := {
  kibanaVersion : option semver.Version;
  category : string;
  packageQuery : string;
  all : bool;
  internal : bool
}.

Inductive Error : Type :=
  | InvalidKibanaVersion (v : string)
  | ProblemFetchingPackages (e : string)
  | MarshalError (e : string).

(** What the handler writes: [notFound] with an error, or the body. *)
Inductive Response : Type :=
  | NotFound (e : Error)
  | Body (data : string).

Definition nonEmpty (s : string) : bool := negb (String.eqb s EmptyString).

Definition separator : string := "@".

(** The values of the local variables before any parameter is read. *)
Definition zeroParams : Params :=
  {| kibanaVersion := None; category := EmptyString;
     packageQuery := EmptyString; all := false; internal := false |}.

(** Lines 35-67: the parameters, read one after the other. *)
Definition readFilters (query : url.Values) : result Error Params :=
  let kibana :=
    let v := url.Get query "kibana" in
    if nonEmpty v then
      match semver.New v with
      | Some k => Ok (Some k)
      | None => Err (InvalidKibanaVersion v)
      end
    else Ok None in
  match kibana with
  | Err e => Err e
  | Ok kibanaVersion =>
      Ok {| kibanaVersion := kibanaVersion;
            category :=
              (let v := url.Get query "category" in
               if nonEmpty v then v else EmptyString);
            packageQuery :=
              (let v := url.Get query "package" in
               if nonEmpty v then v else EmptyString);
            all :=
              (let v := url.Get query "all" in
               if nonEmpty v then fst (strconv.ParseBool v) else false);
            internal :=
              (let v := url.Get query "internal" in
               if nonEmpty v then fst (strconv.ParseBool v) else false) |}
  end.

(** Lines 33-68: the parameters are read when the query holds any. *)
Definition readParams (query : url.Values) : result Error Params :=
  if bool_decide (0 < size query)%nat then readFilters query
  else Ok zeroParams.

(** Lines 81-101: the four filters, in the order of the loop body;
    [true] when the package is kept. *)
Definition keeps (f : Params) (p : Package) : bool :=
  if Internal p && negb (internal f) then false
  else if nonEmpty (category f) && negb (HasCategory p (category f)) then false
  else if match kibanaVersion f with
          | Some k => negb (HasKibanaVersion p k)
          | None => false
          end then false
  else if nonEmpty (packageQuery f) && negb (String.eqb (packageQuery f) (Name p))
  then false
  else true.

(** [delete(packagesList[name], version)]; deleting from the nil map
    that a missing [name] yields does nothing. *)
Definition deleteVersion (name version : string) (pl : PackagesList) : PackagesList :=
  alter (delete version) name pl.

(** [packagesList[n][v]], the zero package when a key is missing. *)
Definition lookupPackage (pl : PackagesList) (n v : string) : Package :=
  default zeroPackage (pl !! n ≫= (.!! v)).

(** Modelled from the spec: the download path and the catalog path
    of a package are computed from the package by [GetDownloadPath] and
    [GetUrlPath], whose format is declared outside the files at hand. *)
Class PackagePaths : Type := {
  GetDownloadPath : Package → string;
  GetUrlPath : Package → string
}.

(** [json.MarshalIndent] of the standard library, at the two-space
    indentation the handler asks for. *)
Class Json : Type := {
  MarshalIndent : list OutputRecord → result string string
}.

Section search.
Context {O : MapRange} {paths : PackagePaths} {json : Json}.

(** Lines 106-115, the body of the inner loop at the entry under
    [k], [v].  The inner map is shared with [packagesList], so an
    entry deleted before the loop reaches it is not produced. *)
Definition visit (p : Package) (k v : string) (pl : PackagesList) : PackagesList :=
  match pl !! k ≫= (.!! v) with
  | Some pp =>
      if String.eqb (Name pp) (Name p) then
        if IsNewer pp p then pl
        else deleteVersion (Name pp) (Version pp) pl
      else pl
  | None => pl
  end.

(** Lines 105-117: the two nested loops over the map. *)
Definition dropOlder (p : Package) (pl : PackagesList) : PackagesList :=
  foldl (λ pl k,
           foldl (λ pl v, visit p k v pl) pl (range (default ∅ (pl !! k))))
        pl (range pl).

(** Lines 78-124: one round of the loop over the packages. *)
Definition addPackage (f : Params) (pl : PackagesList) (p : Package) : PackagesList :=
  if keeps f p then
    let pl := if all f then pl else dropOlder p pl in
    let pl := match pl !! Name p with
              | Some _ => pl
              | None => <[Name p := ∅]> pl
              end in
    alter (insert (Version p) p) (Name p) pl
  else pl.

(** Lines 75-124: the loop over the packages, from the empty map. *)
Definition collect (f : Params) (packages : list Package) : PackagesList :=
  foldl (addPackage f) ∅ packages.

(** Lines 142-148. *)
Definition compositeKeys (pl : PackagesList) : list string :=
  key ← range pl;
  v ← range (default ∅ (pl !! key));
  [key +:+ separator +:+ v].

(** [sort.Strings]: ascending byte-wise order. *)
Definition sortStrings (keys : list string) : list string :=
  merge_sort String.le keys.

(** Lines 155-171. *)
Definition project (m : Package) : OutputRecord :=
  {| r_name := Name m;
     r_description := Description m;
     r_version := Version m;
     r_type := Type_ m;
     r_download := GetDownloadPath m;
     r_path := GetUrlPath m;
     r_title := Title m;
     r_icons := Icons m;
     r_internal := if Internal m then Some true else None |}.

(** Lines 140-173.  Every key holds the separator, so [parts] has at
    least two elements (see [Split_key_length]). *)
Definition packageRecords (pl : PackagesList) : list OutputRecord :=
  (λ k, let parts := Strings.Split k "@" in
        project (lookupPackage pl (parts !!! 0%nat) (parts !!! 1%nat)))
  <$> sortStrings (compositeKeys pl).

Definition getPackageOutput (pl : PackagesList) : result string string :=
  let output := packageRecords pl in
  if bool_decide (length output = 0%nat) then Ok "[]"
  else MarshalIndent output.

(** The handler, on the query of the request and on what
    [util.GetPackages] returned. *)
Definition searchHandler (query : url.Values)
    (fetched : result string (list Package)) : Response :=
  match readParams query with
  | Err e => NotFound e
  | Ok f =>
      match fetched with
      | Err e => NotFound (ProblemFetchingPackages e)
      | Ok packages =>
          match getPackageOutput (collect f packages) with
          | Err e => NotFound (MarshalError e)
          | Ok data => Body data
          end
      end
  end.

End search.

(** ** Paths and the file system, as the dataset loader sees them *)

Module filepath.

(** [filepath.Base]: the last element of the path, trailing
    separators removed; [.] for the empty path and [/] for a path of
    separators only. *)
Definition Base (path : string) : string :=
  if String.eqb path EmptyString then "."
  else List.last (List.filter nonEmpty (Strings.Split path "/")) "/".

(** The elements of a path that [Clean] keeps, in reverse: empty
    elements and [.] go; [..] takes away the element before it, stays
    at the head of a path that is not rooted, and goes at the head of
    a rooted one. *)
Fixpoint cleanElements (rooted : bool) (elements kept : list string) : list string :=
  match elements with
  | [] => kept
  | e :: rest =>
      if String.eqb e EmptyString || String.eqb e "." then
        cleanElements rooted rest kept
      else if String.eqb e ".." then
        match kept with
        | top :: kept' =>
            if String.eqb top ".." then cleanElements rooted rest (e :: kept)
            else cleanElements rooted rest kept'
        | [] =>
            if rooted then cleanElements rooted rest []
            else cleanElements rooted rest [e]
        end
      else cleanElements rooted rest (e :: kept)
  end.

(** [filepath.Clean]: the shortest path that names the same file, by
    processing of the text alone. *)
Definition Clean (path : string) : string :=
  if String.eqb path EmptyString then "."
  else
    let rooted := String.prefix "/" path in
    let out :=
      String.concat "/" (List.rev (cleanElements rooted (Strings.Split path "/") [])) in
    if rooted then "/" +:+ out
    else if String.eqb out EmptyString then "." else out.

(** The elements from the first one that is not empty. *)
Fixpoint fromFirstNonEmpty (elem : list string) : list string :=
  match elem with
  | EmptyString :: rest => fromFirstNonEmpty rest
  | _ => elem
  end.

(** [filepath.Join]: the elements from the first non-empty one on,
    separated by [/], and the result cleaned; the empty path when
    every element is empty. *)
Definition Join (elem : list string) : string :=
  match fromFirstNonEmpty elem with
  | [] => EmptyString
  | elem' => Clean (String.concat "/" elem')
  end.

End filepath.

Module Stream.
Record t : Type := {
  Input : string;
  Vars : list (gmap string string);
  Dataset : string;
  Title : string;
  Description : string
}.
End Stream.

Module ucfg.

(** The content of a [manifest.yml], as [yaml.NewConfigWithFile]
    hands it over: a key that the file leaves out is [None].  The
    last three keys are those under which go-ucfg fills the fields
    of the dataset that bear no [config] tag. *)
Record Config : Type := {
  id : option string;
  title : option string;
  release : option string;
  type : option string;
  ingest_pipeline : option string;
  streams : option (list Stream.t);
  package : option string;
  path : option string;
  basepath : option string
}.

End ucfg.

(** What the loader asks of the disk. *)
Record FileSystem : Type := {
  (** [os.Stat(path)] fails with an error that [os.IsNotExist] accepts *)
  StatNotExist : string → bool;
  (** [filepath.Glob(pattern)] *)
  Glob : string → result string (list string);
  (** [yaml.NewConfigWithFile(path)]; [None] when it fails, which
      leaves the nil configuration *)
  NewConfigWithFile : string → option ucfg.Config
}.

Module DataSet.

Record t : Type := {
  ID : string;
  Title : string;
  Release : string;
  Type_ : string;
  IngestPipeline : string;
  Streams : list Stream.t;
  Package : string;
  Path : string;
  BasePath : string
}.

Inductive Error : Type :=
  | BadPattern (e : string)
  | InvalidIdentifier (id : string)
  | UnusedPipelines (paths : list string) (id : string)
  | MissingPipeline (where_ : string)
  | ManifestNotExist (packageBasePath : string)
  | NilConfig
  | Required (field : string)
  | BuildingDataset (datasetPath package : string) (cause : Error).

Definition setID (id : string) (d : t) : t :=
  {| ID := id; Title := Title d; Release := Release d; Type_ := Type_ d;
     IngestPipeline := IngestPipeline d; Streams := Streams d;
     Package := Package d; Path := Path d; BasePath := BasePath d |}.

Definition setRelease (r : string) (d : t) : t :=
  {| ID := ID d; Title := Title d; Release := r; Type_ := Type_ d;
     IngestPipeline := IngestPipeline d; Streams := Streams d;
     Package := Package d; Path := Path d; BasePath := BasePath d |}.

Definition setIngestPipeline (ip : string) (d : t) : t :=
  {| ID := ID d; Title := Title d; Release := Release d; Type_ := Type_ d;
     IngestPipeline := ip; Streams := Streams d;
     Package := Package d; Path := Path d; BasePath := BasePath d |}.

(** Line 101: the file is the default pipeline. *)
Definition isDefault (path : string) : bool :=
  String.eqb (filepath.Base path) "default.json"
  || String.eqb (filepath.Base path) "default.yml".

(** Lines 100-105: the loop that looks for a default pipeline and
    leaves at the first one. *)
Fixpoint scanDefault (paths : list string) (d : t) : t :=
  match paths with
  | [] => d
  | path :: paths' =>
      if isDefault path then setIngestPipeline "default" d
      else scanDefault paths' d
  end.

(** Line 88. *)
Definition pipelineDir (d : t) : string :=
  filepath.Join [BasePath d; "elasticsearch"; "ingest-pipeline"].

(** [(d *DataSet) Validate()]: the dataset as the call leaves it,
    and the error it returns, if any. *)
Definition Validate (fs : FileSystem) (d : t) : t * option Error :=
  let pipelineDir := pipelineDir d in
  match Glob fs (filepath.Join [pipelineDir; "*"]) with
  | Err e => (d, Some (BadPattern e))
  | Ok paths =>
      if Strings.Contains (ID d) "-" then (d, Some (InvalidIdentifier (ID d)))
      else
        let d :=
          if String.eqb (IngestPipeline d) EmptyString
          then scanDefault paths d else d in
        if String.eqb (IngestPipeline d) EmptyString
           && bool_decide (0 < length paths)%nat
        then (d, Some (UnusedPipelines paths (ID d)))
        else if nonEmpty (IngestPipeline d) then
          let errJSON :=
            StatNotExist fs
              (filepath.Join [pipelineDir; IngestPipeline d +:+ ".json"]) in
          let errYAML :=
            StatNotExist fs
              (filepath.Join [pipelineDir; IngestPipeline d +:+ ".yml"]) in
          if errYAML && errJSON
          then (d, Some (MissingPipeline (pipelineDir +:+ IngestPipeline d)))
          else (d, None)
        else (d, None)
  end.

(** The fields that the manifest sets, written over those of [d]. *)
Definition populate (c : ucfg.Config) (d : t) : t :=
  {| ID := default (ID d) (ucfg.id c);
     Title := default (Title d) (ucfg.title c);
     Release := default (Release d) (ucfg.release c);
     Type_ := default (Type_ d) (ucfg.type c);
     IngestPipeline := default (IngestPipeline d) (ucfg.ingest_pipeline c);
     Streams := default (Streams d) (ucfg.streams c);
     Package := default (Package d) (ucfg.package c);
     Path := default (Path d) (ucfg.path c);
     BasePath := default (BasePath d) (ucfg.basepath c) |}.

(** The fields tagged [validate:"required"]: each is to be there and
    not to be empty. *)
Definition missingRequired (c : ucfg.Config) : option string :=
  if bool_decide (ucfg.title c = None ∨ ucfg.title c = Some EmptyString)
  then Some "title"
  else if bool_decide (ucfg.type c = None ∨ ucfg.type c = Some EmptyString)
  then Some "type"
  else match ucfg.streams c with
       | None | Some [] => Some "streams"
       | Some ss =>
           if forallb (λ s, nonEmpty (Stream.Input s)) ss then None
           else Some "streams.input"
       end.

(** [manifest.Unpack(d)]: go-ucfg fills the fields of [d], checks
    the required ones and then calls [Validate] on [d]. *)
Definition Unpack (fs : FileSystem) (manifest : option ucfg.Config) (d : t)
    : t * option Error :=
  match manifest with
  | None => (d, Some NilConfig)
  | Some c =>
      let d := populate c d in
      match missingRequired c with
      | Some field => (d, Some (Required field))
      | None => Validate fs d
      end
  end.

End DataSet.

(** [NewDataset(basePath, p)] *)
Definition NewDataset (fs : FileSystem) (basePath : string) (p : Package)
    : result DataSet.Error DataSet.t :=
  let manifestPath := filepath.Join [basePath; "manifest.yml"] in
  if StatNotExist fs manifestPath
  then Err (DataSet.ManifestNotExist (BasePath p))
  else
    let datasetPath := filepath.Base basePath in
    let manifest := NewConfigWithFile fs manifestPath in
    let d :=
      {| DataSet.ID := EmptyString; DataSet.Title := EmptyString;
         DataSet.Release := EmptyString; DataSet.Type_ := EmptyString;
         DataSet.IngestPipeline := EmptyString; DataSet.Streams := [];
         DataSet.Package := Name p; DataSet.Path := datasetPath;
         DataSet.BasePath := basePath |} in
    match DataSet.Unpack fs manifest d with
    | (_, Some err) => Err (DataSet.BuildingDataset datasetPath (Name p) err)
    | (d, None) =>
        let d :=
          if String.eqb (DataSet.ID d) EmptyString
          then DataSet.setID (Name p +:+ "." +:+ datasetPath) d else d in
        let d :=
          if String.eqb (DataSet.Release d) EmptyString
          then DataSet.setRelease "beta" d else d in
        Ok d
    end.

(** ** Predicates and descriptions used in the statements *)

(** Entries of the nested map sit under their own name and version. *)
Definition keyed (pl : PackagesList) : Prop :=
  ∀ n vs v pp, pl !! n = Some vs → vs !! v = Some pp →
    Name pp = n ∧ Version pp = v.

(** Every package held in the nested map satisfies [P]. *)
Definition allPackages (P : Package → Prop) (pl : PackagesList) : Prop :=
  ∀ n vs v pp, pl !! n = Some vs → vs !! v = Some pp → P pp.

(** The versions that are newer than [p]. *)
Definition keepNewer (p : Package) (vs : gmap string Package) : gmap string Package :=
  filter (λ e, IsNewer e.2 p = true) vs.

(** One round of the loop, without the iteration. *)
Definition addPackageSpec (f : Params) (pl : PackagesList) (p : Package) : PackagesList :=
  if keeps f p then
    let vs := default ∅ (pl !! Name p) in
    <[Name p := <[Version p := p]> (if all f then vs else keepNewer p vs)]> pl
  else pl.

(** The separator occurs neither in the name nor in the version. *)
Definition noSeparator (p : Package) : Prop :=
  Strings.HasByte "@" (Name p) = false ∧ Strings.HasByte "@" (Version p) = false.

(** The textual key by which the records are to be ordered. *)
Definition compositeKey (r : OutputRecord) : string :=
  r_name r +:+ separator +:+ r_version r.

(** ** Sample inputs *)

Definition samplePackage (n v descr : string) (hidden : bool) : Package :=
  {| Name := n; Version := v;
     versionSemVer := default zeroVersion (semver.New v);
     Title := None; Description := descr; Type_ := "integration";
     Categories := ["logs"]; KibanaVersions := None; Internal := hidden;
     Icons := None; BasePath := "/packages/" +:+ n +:+ "-" +:+ v |}.

Definition mysql_1_0_0 : Package := samplePackage "mysql" "1.0.0" "MySQL" false.
Definition mysql_1_2_0 : Package := samplePackage "mysql" "1.2.0" "MySQL" false.
Definition nginx_2_0_0 : Package := samplePackage "nginx" "2.0.0" "Nginx" false.
Definition mysql_1_0_0_again : Package :=
  samplePackage "mysql" "1.0.0" "MySQL, second copy" false.
Definition hidden_0_1_0 : Package := samplePackage "hidden" "0.1.0" "Internal" true.

Definition samplePaths : PackagePaths :=
  {| GetDownloadPath p := "/epr/" +:+ Name p +:+ "-" +:+ Version p;
     GetUrlPath p := "/package/" +:+ Name p +:+ "-" +:+ Version p |}.

(** A stand-in for the encoder that shows the keys of the records. *)
Definition sampleJson : Json :=
  {| MarshalIndent output := Ok (String.concat "," (compositeKey <$> output)) |}.

Definition sampleStream : Stream.t :=
  {| Stream.Input := "logs"; Stream.Vars := []; Stream.Dataset := EmptyString;
     Stream.Title := "Access logs"; Stream.Description := EmptyString |}.

Definition sampleConfig (id : option string) : ucfg.Config :=
  {| ucfg.id := id; ucfg.title := Some "Access"; ucfg.release := None;
     ucfg.type := Some "logs"; ucfg.ingest_pipeline := None;
     ucfg.streams := Some [sampleStream];
     ucfg.package := None; ucfg.path := None; ucfg.basepath := None |}.

(** A disk that holds the dataset directory [basePath] with its
    manifest and the given files in its pipeline directory. *)
Definition sampleDisk (basePath : string) (pipelines : list string)
    (manifest : ucfg.Config) : FileSystem :=
  let dir := filepath.Join [basePath; "elasticsearch"; "ingest-pipeline"] in
  let files := (λ f, filepath.Join [dir; f]) <$> pipelines in
  {| StatNotExist path :=
       negb (bool_decide (path ∈ filepath.Join [basePath; "manifest.yml"] :: files));
     Glob pattern :=
       if String.eqb pattern (filepath.Join [dir; "*"]) then Ok files else Ok [];
     NewConfigWithFile path :=
       if String.eqb path (filepath.Join [basePath; "manifest.yml"])
       then Some manifest else None |}.

Definition sampleDataSet (id basePath : string) : DataSet.t :=
  {| DataSet.ID := id; DataSet.Title := "Access"; DataSet.Release := "beta";
     DataSet.Type_ := "logs"; DataSet.IngestPipeline := EmptyString;
     DataSet.Streams := [sampleStream]; DataSet.Package := "nginx";
     DataSet.Path := filepath.Base basePath; DataSet.BasePath := basePath |}.

Definition my_pkg_1_0_0 : Package := samplePackage "my-pkg" "1.0.0" "Hyphenated" false.

(** ** The importer of Beats modules: the streams of a dataset
    (dev/import-beats/streams.go) *)

Module beats.

(** A value of type [interface{}] as the YAML decoder produces it,
    or as [wrapVariablesWithDefault] wraps it.  Of a floating-point
    number only its 64 bits are kept; nothing is computed with it. *)
#[warnings="-register-all"]
Inductive Value : Type :=
  | Nil
  | Str (s : string)
  | Int (z : Z)
  | Float (bits : N)
  | Bool (b : bool)
  | Seq (l : list Value)
  | Map (kv : list (Value * Value))
  | varWithDefault (Default : Value).

(** [map[string]interface{}], which is also what [mapStr] is. *)
Abbreviation mapStr := (gmap string Value).

Record manifestWithVars : Type := { Vars : list mapStr }.

(** [util.Stream] with the variables as the importer builds them. *)
Record Stream : Type := {
  Input : string;
  StreamVars : list mapStr;
  Dataset : string;
  Title : string;
  Description : string
}.

(** The error of [ioutil.ReadFile]: [os.IsNotExist] accepts it, or not. *)
Inductive ReadError : Type :=
  | NotExist
  | OtherReadError (e : string).

(** What the importer asks of the disk. *)
Record Disk : Type := {
  (** [filepath.Glob(pattern)] *)
  Glob : string → result string (list string);
  (** [ioutil.ReadFile(path)] *)
  ReadFile : string → result ReadError string
}.

(** [yaml.Unmarshal] into the two types the importer decodes, and
    the [flatten] method of [mapStr], which is declared outside the
    files at hand. *)
Class Decoder : Type := {
  UnmarshalManifest : string → result string manifestWithVars;
  UnmarshalConfig : string → result string (list mapStr);
  flatten : mapStr → mapStr
}.

Inductive Error : Type :=
  | InvalidBeatType (beatType : string)
  | ReadingManifestFailed (path : string) (cause : ReadError)
  | UnmarshallingManifestFailed (path : string) (cause : string)
  | LocatingConfigFilesFailed (modulePath : string) (cause : string)
  | ReadingConfigFileFailed (path : string) (cause : ReadError)
  | MergingConfigFilesFailed (cause : Error)
  | UnmarshallingModuleConfigFailed (moduleName datasetName : string)
      (cause : string)
  | MappingMetricsetsFailed (moduleName datasetName : string)
  | NoMetricsetsDefined (moduleName datasetName : string)
  | CheckingRelatedFailed (moduleName datasetName : string) (cause : Error)
  (** the panic of a failed type assertion *)
  | TypeAssertionPanic.

Definition ignoredConfigOptions : list string :=
  ["module"; "metricsets"; "enabled"].

(** [shouldConfigOptionBeIgnored] *)
Definition shouldConfigOptionBeIgnored (optionName : string) (value : Value) : bool :=
  match value with
  | Nil => true
  | _ => bool_decide (optionName ∈ ignoredConfigOptions)
  end.

(** Lines 209-214: the loop over the metricsets, which leaves at the
    first one that is the dataset; [None] is the panic of
    [metricset.(string)] on an element that is no string. *)
Fixpoint hasMetricset (datasetName : string) (metricsetsMapped : list Value)
    : option bool :=
  match metricsetsMapped with
  | [] => Some false
  | Str s :: rest =>
      if String.eqb s datasetName then Some true
      else hasMetricset datasetName rest
  | _ :: _ => None
  end.

(** [isConfigEntryRelatedToMetricset] *)
Definition isConfigEntryRelatedToMetricset (entry : mapStr)
    (moduleName datasetName : string) : result Error bool :=
  match entry !! "metricsets" with
  | Some (Seq metricsetsMapped) =>
      if bool_decide (length metricsetsMapped = 0%nat)
      then Err (NoMetricsetsDefined moduleName datasetName)
      else match hasMetricset datasetName metricsetsMapped with
           | Some metricsetRelated => Ok metricsetRelated
           | None => Err TypeAssertionPanic
           end
  | Some _ => Err (MappingMetricsetsFailed moduleName datasetName)
  | None => Ok false
  end.

Definition newline : string := String "010"%char EmptyString.

(** Lines 169-176: the files are read one after the other; a file that
    is gone between the glob and the read counts as empty. *)
Fixpoint mergeFiles (d : Disk) (configFilePaths : list string)
    (mergedConfig : string) : result Error string :=
  match configFilePaths with
  | [] => Ok mergedConfig
  | configFilePath :: rest =>
      match ReadFile d configFilePath with
      | Err (OtherReadError e) =>
          Err (ReadingConfigFileFailed configFilePath (OtherReadError e))
      | Err NotExist =>
          mergeFiles d rest (mergedConfig +:+ EmptyString +:+ newline)
      | Ok configFile =>
          mergeFiles d rest (mergedConfig +:+ configFile +:+ newline)
      end
  end.

(** [mergeMetaConfigFiles] *)
Definition mergeMetaConfigFiles (d : Disk) (modulePath : string)
    : result Error string :=
  match Glob d (filepath.Join [modulePath; "_meta"; "config*.yml"]) with
  | Err e => Err (LocatingConfigFilesFailed modulePath e)
  | Ok configFilePaths => mergeFiles d configFilePaths EmptyString
  end.

(** The map with the keys [default] and [name] of lines 136-139. *)
Definition configOption (name : string) (value : Value) : mapStr :=
  {[ "default" := value; "name" := Str name ]}.

(** [configOptions[i]["name"].(string)]; the options are built by
    [configOption], so that the assertion holds. *)
Definition optionName (o : mapStr) : string :=
  match o !! "name" with
  | Some (Str s) => s
  | _ => EmptyString
  end.

(** Lines 146-148: [sort.Slice] with the order of the names.  The
    names of the options are pairwise distinct, so that the result is
    the one list in ascending order of the names. *)
Definition sortOptions (configOptions : list mapStr) : list mapStr :=
  merge_sort (λ a b, String.le (optionName a) (optionName b)) configOptions.

Section streams.
Context {O : MapRange} {decoder : Decoder}.

(** Lines 80-88: the body of the loop over the keys of a variable. *)
Definition wrapVariable (aVar : mapStr) : mapStr :=
  foldl (λ aVarWithDefaults k,
           match aVar !! k with
           | Some v =>
               if String.prefix "os." k
               then <[k := varWithDefault v]> aVarWithDefaults
               else <[k := v]> aVarWithDefaults
           | None => aVarWithDefaults
           end)
        ∅ (range aVar).

(** [wrapVariablesWithDefault] *)
Definition wrapVariablesWithDefault (mwvs : manifestWithVars) : manifestWithVars :=
  {| Vars := wrapVariable <$> Vars mwvs |}.

(** [createLogStreams] *)
Definition createLogStreams (d : Disk) (modulePath moduleTitle datasetName : string)
    : result Error (list Stream) :=
  let manifestPath := filepath.Join [modulePath; datasetName; "manifest.yml"] in
  match ReadFile d manifestPath with
  | Err e => Err (ReadingManifestFailed manifestPath e)
  | Ok manifestFile =>
      match UnmarshalManifest manifestFile with
      | Err e => Err (UnmarshallingManifestFailed manifestPath e)
      | Ok mwv =>
          Ok [ {| Input := "logs";
                  Title := moduleTitle +:+ " " +:+ datasetName +:+ " logs";
                  Description :=
                    "Collect " +:+ moduleTitle +:+ " " +:+ datasetName +:+ " logs";
                  StreamVars := Vars (wrapVariablesWithDefault mwv);
                  Dataset := EmptyString |} ]
      end
  end.

(** Lines 126-142: the body of the loop over the options of one
    entry, on the options and the names found so far. *)
Definition addOption (related : bool) (datasetName : string) (flatEntry : mapStr)
    (st : list mapStr * gmap string bool) (name : string)
    : list mapStr * gmap string bool :=
  match flatEntry !! name with
  | Some value =>
      if shouldConfigOptionBeIgnored name value then st
      else if bool_decide (is_Some (st.2 !! name)) then st
      else if related || String.prefix (datasetName +:+ ".") name
      then (st.1 ++ [configOption name value], <[name := true]> st.2)
      else st
  | None => st
  end.

(** Lines 118-143: the loop over the entries of the module
    configuration. *)
Fixpoint collectOptions (moduleName datasetName : string)
    (moduleConfig : list mapStr) (st : list mapStr * gmap string bool)
    : result Error (list mapStr) :=
  match moduleConfig with
  | [] => Ok st.1
  | moduleConfigEntry :: rest =>
      let flatEntry := flatten moduleConfigEntry in
      match isConfigEntryRelatedToMetricset flatEntry moduleName datasetName with
      | Err TypeAssertionPanic => Err TypeAssertionPanic
      | Err e => Err (CheckingRelatedFailed moduleName datasetName e)
      | Ok related =>
          collectOptions moduleName datasetName rest
            (foldl (addOption related datasetName flatEntry) st (range flatEntry))
      end
  end.

(** [createMetricStreams] *)
Definition createMetricStreams (d : Disk)
    (modulePath moduleName moduleTitle datasetName : string)
    : result Error (list Stream) :=
  match mergeMetaConfigFiles d modulePath with
  | Err e => Err (MergingConfigFilesFailed e)
  | Ok merged =>
      let configOptions :=
        if bool_decide (0 < String.length merged)%nat then
          match UnmarshalConfig merged with
          | Err e =>
              Err (UnmarshallingModuleConfigFailed moduleName datasetName e)
          | Ok moduleConfig =>
              match collectOptions moduleName datasetName moduleConfig ([], ∅) with
              | Err e => Err e
              | Ok configOptions => Ok (sortOptions configOptions)
              end
          end
        else Ok [] in
      match configOptions with
      | Err e => Err e
      | Ok configOptions =>
          Ok [ {| Input := moduleName +:+ "/metrics";
                  Title := moduleTitle +:+ " " +:+ datasetName +:+ " metrics";
                  Description :=
                    "Collect " +:+ moduleTitle +:+ " " +:+ datasetName
                    +:+ " metrics";
                  StreamVars := configOptions;
                  Dataset := EmptyString |} ]
      end
  end.

(** [createStreams] *)
Definition createStreams (d : Disk)
    (modulePath moduleName moduleTitle datasetName beatType : string)
    : result Error (list Stream) :=
  if String.eqb beatType "logs"
  then createLogStreams d modulePath moduleTitle datasetName
  else if String.eqb beatType "metrics"
  then createMetricStreams d modulePath moduleName moduleTitle datasetName
  else Err (InvalidBeatType beatType).

End streams.

End beats.

(** ** Descriptions used in the statements about the importer *)

(** The option is not ignored and belongs to the dataset. *)
Definition qualifies (related : bool) (datasetName name : string)
    (value : beats.Value) : bool :=
  negb (beats.shouldConfigOptionBeIgnored name value)
  && (related || String.prefix (datasetName +:+ ".") name).

(** The value under which [name] is taken up from the entry, if it
    is: the option qualifies and its name has not been found yet. *)
Definition accepts (related : bool) (datasetName : string)
    (flatEntry : beats.mapStr) (found : gmap string bool) (name : string)
    : option beats.Value :=
  match flatEntry !! name with
  | Some value =>
      if qualifies related datasetName name value
         && bool_decide (found !! name = None)
      then Some value else None
  | None => None
  end.

(** The same names found, and the same options up to their order. *)
Definition sameOptions (st1 st2 : list beats.mapStr * gmap string bool) : Prop :=
  st1.1 ≡ₚ st2.1 ∧ st1.2 = st2.2.

(** The names found are those of the options, no name occurs twice,
    and every option is built from a name and a value that satisfy [Q]. *)
Definition optionsInv (Q : string → beats.Value → Prop)
    (st : list beats.mapStr * gmap string bool) : Prop :=
  NoDup (beats.optionName <$> st.1) ∧
  (∀ n, is_Some (st.2 !! n) ↔ n ∈ beats.optionName <$> st.1) ∧
  Forall (λ o, ∃ n v, o = beats.configOption n v ∧ Q n v) st.1.

(** ** Sample inputs for the importer *)

Definition allParams : Params :=
  {| kibanaVersion := None; category := EmptyString;
     packageQuery := EmptyString; all := true; internal := false |}.

Definition mysqlParams : Params :=
  {| kibanaVersion := None; category := "logs";
     packageQuery := "mysql"; all := false; internal := false |}.

Definition accessDataSet : DataSet.t :=
  {| DataSet.ID := "nginx.access"; DataSet.Title := "Access";
     DataSet.Release := "beta"; DataSet.Type_ := "logs";
     DataSet.IngestPipeline := "access"; DataSet.Streams := [sampleStream];
     DataSet.Package := "nginx"; DataSet.Path := "access";
     DataSet.BasePath := "/packages/nginx-1.0.0/dataset/access" |}.


(** One entry of a module configuration, already flat. *)
Definition statusEntry : beats.mapStr :=
  {[ "module" := beats.Str "mysql";
     "metricsets" := beats.Seq [beats.Str "status"];
     "hosts" := beats.Seq [beats.Str "localhost"];
     "period" := beats.Str "10s";
     "password" := beats.Nil ]}.

Definition sampleDecoder : beats.Decoder :=
  {| beats.UnmarshalManifest _ :=
       Ok {| beats.Vars :=
               [ {[ "name" := beats.Str "paths";
                    "os.darwin" := beats.Seq [beats.Str "/usr/local/var/log"] ]} ] |};
     beats.UnmarshalConfig _ := Ok [statusEntry];
     beats.flatten m := m |}.

(** A module directory with one configuration file, or with none. *)
Definition sampleModule (configs : list string) : beats.Disk :=
  {| beats.Glob pattern :=
       if String.eqb pattern "mysql/_meta/config*.yml" then Ok configs
       else Ok [];
     beats.ReadFile path :=
       if String.eqb path "mysql/_meta/config.yml" then Ok "- module: mysql"
       else if String.eqb path "mysql/error/manifest.yml" then Ok "var: []"
       else Err beats.NotExist |}.

Definition statusStream : beats.Stream :=
  {| beats.Input := "mysql/metrics";
     beats.StreamVars :=
       [ beats.configOption "hosts" (beats.Seq [beats.Str "localhost"]);
         beats.configOption "period" (beats.Str "10s") ];
     beats.Dataset := EmptyString;
     beats.Title := "MySQL status metrics";
     beats.Description := "Collect MySQL status metrics" |}.

(** * The library models on a few inputs *)

Example semver_New_1 :
  semver.New "1.2.0" =
  Some {| semver.Major := 1; semver.Minor := 2; semver.Patch := 0;
          semver.Pre := []; semver.Build := [] |}.
Proof. reflexivity. Qed.

Example semver_New_2 :
  semver.New "7.0.0-beta.1+exp" =
  Some {| semver.Major := 7; semver.Minor := 0; semver.Patch := 0;
          semver.Pre := [semver.PRStr "beta"; semver.PRNum 1];
          semver.Build := ["exp"] |}.
Proof. reflexivity. Qed.

Example semver_New_3 : semver.New "7.x" = None ∧ semver.New EmptyString = None ∧ semver.New "01.0.0" = None.
Proof. repeat split; reflexivity. Qed.

Example Clean_1 :
  filepath.Clean <$> ["a//b"; "./a/b"; "a/../b"; "/../a"; "../../a"; "a/b/";
                      "a/b/../../.."; "//a//"; "/"; "./"]
  = ["a/b"; "a/b"; "b"; "/a"; "../../a"; "a/b"; ".."; "/a"; "/"; "."].
Proof. reflexivity. Qed.

Example Join_1 :
  filepath.Join ["./pkg/access/"; "elasticsearch"; "ingest-pipeline"]
    = "pkg/access/elasticsearch/ingest-pipeline" ∧
  filepath.Join [EmptyString; "a"; EmptyString; "b"] = "a/b" ∧
  filepath.Join [EmptyString; EmptyString] = EmptyString.
Proof. repeat split; reflexivity. Qed.

Example Split_1 : Strings.Split "mysql@1.2.0" "@" = ["mysql"; "1.2.0"].
Proof. reflexivity. Qed.

Example Split_2 : Strings.Split "a@b@c" "@" = ["a"; "b"; "c"] ∧ Strings.Split EmptyString "@" = [EmptyString].
Proof. split; reflexivity. Qed.

(** * Facts about the search handler *)

(** ** Splitting a composite key *)

Lemma Split_no_sep (c : ascii) (s : string) :
  Strings.HasByte c s = false → Strings.Split s c = [s].
Proof.
  induction s as [|a s IH]; simpl; [done|].
  intros [Ha Hs]%orb_false_elim. rewrite Ha, IH; done.
Qed.

Lemma Split_key (c : ascii) (n v : string) :
  Strings.HasByte c n = false → Strings.HasByte c v = false →
  Strings.Split (n +:+ String c v) c = [n; v].
Proof.
  intros Hn Hv. induction n as [|a n IH]; simpl in *.
  - rewrite Ascii.eqb_refl, Split_no_sep; done.
  - apply orb_false_elim in Hn as [Ha Hn]. rewrite Ha, IH; done.
Qed.

Lemma Split_key_length (c : ascii) (n v : string) :
  (2 ≤ length (Strings.Split (n +:+ String c v) c))%nat.
Proof.
  assert (∀ s, (1 ≤ length (Strings.Split s c))%nat) as Hone.
  { induction s as [|a s IH]; simpl; [lia|].
    destruct (Ascii.eqb a c); simpl; [lia|].
    destruct (Strings.Split s c); simpl in *; lia. }
  induction n as [|a n IH]; simpl.
  - rewrite Ascii.eqb_refl. simpl. specialize (Hone v). lia.
  - destruct (Ascii.eqb a c); simpl.
    + specialize (Hone (n +:+ String c v)). lia.
    + destruct (Strings.Split (n +:+ String c v) c); simpl in *; lia.
Qed.

(** ** Order-free description of the two nested loops *)

Section search_facts.
Context {O : MapRange}.

Lemma elem_of_range {A} (m : gmap string A) (k : string) :
  k ∈ range m ↔ is_Some (m !! k).
Proof.
  rewrite (range_perm A m), list_elem_of_fmap. split.
  - intros [[k' x] [-> Hx]]. apply elem_of_map_to_list in Hx. eauto.
  - intros [x Hx]. exists (k, x). split; [done|].
    by apply elem_of_map_to_list.
Qed.

Lemma range_empty {A} : range (∅ : gmap string A) = [].
Proof.
  apply elem_of_nil_inv. intros k [x Hx]%elem_of_range.
  by rewrite lookup_empty in Hx.
Qed.

Lemma keyed_alter g n pl :
  (∀ vs, g vs ⊆ vs) → keyed pl → keyed (alter g n pl).
Proof.
  intros Hg Hpl n' vs v pp Hn' Hv.
  destruct (decide (n = n')) as [<-|Hne].
  - rewrite lookup_alter_eq in Hn'.
    destruct (pl !! n) as [vs0|] eqn:Hn; simplify_eq/=.
    eapply Hpl; [done|]. eapply lookup_weaken; [done|apply Hg].
  - rewrite lookup_alter_ne in Hn' by done. eauto.
Qed.

Lemma visit_other p k v pl :
  keyed pl → k ≠ Name p → visit p k v pl = pl.
Proof.
  intros Hpl Hk. unfold visit.
  destruct (pl !! k) as [vs|] eqn:Hvs; simpl; [|done].
  destruct (vs !! v) as [pp|] eqn:Hpp; [|done].
  destruct (Hpl _ _ _ _ Hvs Hpp) as [Hn _].
  destruct (String.eqb_spec (Name pp) (Name p)); [congruence|done].
Qed.

Lemma inner_loop p vs l pl :
  keyed pl → pl !! Name p = Some vs →
  foldl (λ pl v, visit p (Name p) v pl) pl l =
  <[Name p := filter (λ e, e.1 ∉ l ∨ IsNewer e.2 p = true) vs]> pl.
Proof.
  revert pl vs. induction l as [|v l IH]; intros pl vs Hpl Hvs; simpl.
  - rewrite map_filter_id, insert_id; [done..|].
    intros ?? _. left. apply not_elem_of_nil.
  - unfold visit at 2. rewrite Hvs. simpl.
    destruct (vs !! v) as [pp|] eqn:Hpp.
    + destruct (Hpl _ _ _ _ Hvs Hpp) as [Hn Hv].
      rewrite Hn, String.eqb_refl.
      destruct (IsNewer pp p) eqn:Hnew.
      * rewrite (IH pl vs) by done. f_equal.
        apply map_filter_ext. intros i x Hx. simpl.
        rewrite not_elem_of_cons.
        destruct (decide (i = v)) as [->|]; [|tauto].
        assert (x = pp) as -> by congruence. tauto.
      * unfold deleteVersion. rewrite Hv.
        assert (alter (delete v) (Name p) pl = <[Name p := delete v vs]> pl) as ->.
        { apply map_eq. intros i. destruct (decide (Name p = i)) as [<-|].
          - by rewrite lookup_alter_eq, lookup_insert_eq, Hvs.
          - by rewrite lookup_alter_ne, lookup_insert_ne. }
        rewrite (IH _ (delete v vs)).
        -- rewrite insert_insert_eq. f_equal.
           apply map_eq. intros i. apply option_eq. intros x.
           rewrite !map_lookup_filter_Some. simpl.
           rewrite not_elem_of_cons, lookup_delete_Some.
           split; [intros [[??] [?|?]]; auto|].
           intros [Hx [[Hi Hl]|Hx']]; [auto|].
           split; [split; [|done]|tauto].
           intros <-. simpl in *. congruence.
        -- intros n' vs' v' pp' Hn' Hv'.
           destruct (decide (Name p = n')) as [<-|].
           ++ rewrite lookup_insert_eq in Hn'. simplify_eq.
              apply lookup_delete_Some in Hv' as [_ Hv']. eauto.
           ++ rewrite lookup_insert_ne in Hn' by done. eauto.
        -- by rewrite lookup_insert_eq.
    + rewrite (IH pl vs) by done. f_equal.
      apply map_filter_ext. intros i x Hx. simpl.
      rewrite not_elem_of_cons.
      destruct (decide (i = v)) as [->|]; [congruence|tauto].
Qed.

Lemma dropOlder_round p k pl :
  keyed pl →
  foldl (λ pl v, visit p k v pl) pl (range (default ∅ (pl !! k))) =
  if decide (k = Name p) then alter (keepNewer p) (Name p) pl else pl.
Proof.
  intros Hpl. destruct (decide (k = Name p)) as [->|Hk].
  - destruct (pl !! Name p) as [vs|] eqn:Hvs; simpl.
    + rewrite (inner_loop p vs) by done.
      apply map_eq. intros i. destruct (decide (Name p = i)) as [<-|].
      * rewrite lookup_alter_eq, lookup_insert_eq, Hvs. simpl. f_equal.
        apply map_filter_ext. intros v x Hx. simpl.
        assert (v ∈ range vs) by (apply elem_of_range; eauto). tauto.
      * by rewrite lookup_alter_ne, lookup_insert_ne.
    + rewrite range_empty. simpl.
      apply map_eq. intros i. destruct (decide (Name p = i)) as [<-|].
      * by rewrite lookup_alter_eq, Hvs.
      * by rewrite lookup_alter_ne.
  - generalize (range (default ∅ (pl !! k))). intros l.
    induction l as [|v l IH]; simpl; [done|].
    by rewrite visit_other.
Qed.

Lemma keepNewer_subseteq p vs : keepNewer p vs ⊆ vs.
Proof. apply map_filter_subseteq. Qed.

Lemma keepNewer_idemp p vs : keepNewer p (keepNewer p vs) = keepNewer p vs.
Proof.
  unfold keepNewer. rewrite map_filter_filter.
  apply map_filter_ext. intros; simpl. tauto.
Qed.

(** The nested loops drop, among the versions stored for the name of
    [p], those that are not newer than [p], and nothing else. *)
Lemma dropOlder_alter p pl :
  keyed pl → dropOlder p pl = alter (keepNewer p) (Name p) pl.
Proof.
  intros Hpl. unfold dropOlder.
  assert (Name p ∈ range pl ∨ pl !! Name p = None) as Hin.
  { destruct (pl !! Name p) eqn:E; [left|by right].
    apply elem_of_range. eauto. }
  assert (∀ l pl, keyed pl →
    foldl (λ pl k, foldl (λ pl v, visit p k v pl) pl
                     (range (default ∅ (pl !! k)))) pl l =
    if decide (Name p ∈ l) then alter (keepNewer p) (Name p) pl else pl)
    as Hloop.
  { clear. induction l as [|k l IH]; intros pl Hpl.
    - destruct (decide (Name p ∈ [])) as [Hin|]; [|done].
      by apply elem_of_nil in Hin.
    - cbn [foldl]. rewrite dropOlder_round by done.
      destruct (decide (k = Name p)) as [->|Hk].
      + rewrite IH by (apply keyed_alter; [apply keepNewer_subseteq|done]).
        destruct (decide (Name p ∈ Name p :: l)) as [_|Hn];
          [|destruct Hn; left].
        destruct (decide (Name p ∈ l)); [|done].
        rewrite alter_alter_eq. apply alter_ext.
        intros; simpl. apply keepNewer_idemp.
      + rewrite IH by done.
        destruct (decide (Name p ∈ l)) as [Hl|Hl],
                 (decide (Name p ∈ k :: l)) as [Hkl|Hkl]; try done.
        * destruct Hkl. by right.
        * apply elem_of_cons in Hkl as [?|?]; congruence. }
  rewrite Hloop by done.
  destruct (decide (Name p ∈ range pl)) as [|Hnot]; [done|].
  destruct Hin as [|Hnone]; [done|].
  apply map_eq. intros i. destruct (decide (Name p = i)) as [<-|].
  - by rewrite lookup_alter_eq, Hnone.
  - by rewrite lookup_alter_ne.
Qed.

End search_facts.

(** ** The nested map that the loop over the packages builds *)

Lemma keyed_addPackageSpec f pl p :
  keyed pl → keyed (addPackageSpec f pl p).
Proof.
  intros Hpl. unfold addPackageSpec. destruct (keeps f p); [|done].
  intros n vs v pp Hn Hv. destruct (decide (Name p = n)) as [<-|].
  - rewrite lookup_insert_eq in Hn. simplify_eq.
    destruct (decide (Version p = v)) as [<-|].
    + rewrite lookup_insert_eq in Hv. by simplify_eq.
    + rewrite lookup_insert_ne in Hv by done.
      destruct (pl !! Name p) as [vs|] eqn:Hvs; simpl in Hv.
      * eapply Hpl; [done|]. destruct (all f); [done|].
        by apply map_lookup_filter_Some in Hv as [? _].
      * destruct (all f); [|unfold keepNewer in Hv; rewrite map_filter_empty in Hv];
          by rewrite lookup_empty in Hv.
  - rewrite lookup_insert_ne in Hn by done. eauto.
Qed.

Lemma allPackages_addPackageSpec (P : Package → Prop) f pl p :
  allPackages P pl → (keeps f p = true → P p) →
  allPackages P (addPackageSpec f pl p).
Proof.
  intros Hpl Hp. unfold addPackageSpec.
  destruct (keeps f p); [|done].
  intros n vs v pp Hn Hv. destruct (decide (Name p = n)) as [<-|].
  - rewrite lookup_insert_eq in Hn. simplify_eq.
    destruct (decide (Version p = v)) as [<-|].
    + rewrite lookup_insert_eq in Hv. simplify_eq. auto.
    + rewrite lookup_insert_ne in Hv by done.
      destruct (pl !! Name p) as [vs|] eqn:Hvs; simpl in Hv.
      * eapply Hpl; [done|]. destruct (all f); [done|].
        by apply map_lookup_filter_Some in Hv as [? _].
      * destruct (all f); [|unfold keepNewer in Hv; rewrite map_filter_empty in Hv];
          by rewrite lookup_empty in Hv.
  - rewrite lookup_insert_ne in Hn by done. eauto.
Qed.

Lemma keyed_foldl_spec f ps pl :
  keyed pl → keyed (foldl (addPackageSpec f) pl ps).
Proof.
  revert pl. induction ps as [|p ps IH]; intros pl Hpl; simpl; [done|].
  by apply IH, keyed_addPackageSpec.
Qed.

Lemma allPackages_foldl_spec (P : Package → Prop) f ps pl :
  allPackages P pl → (∀ p, p ∈ ps → keeps f p = true → P p) →
  allPackages P (foldl (addPackageSpec f) pl ps).
Proof.
  revert pl. induction ps as [|p ps IH]; intros pl Hpl HP; simpl; [done|].
  apply IH.
  - apply allPackages_addPackageSpec; [done|]. apply HP. by left.
  - intros q Hq. apply HP. by right.
Qed.

Lemma keyed_empty : keyed ∅.
Proof. intros n vs v pp Hn. by rewrite lookup_empty in Hn. Qed.

Lemma allPackages_empty (P : Package → Prop) : allPackages P ∅.
Proof. intros n vs v pp Hn. by rewrite lookup_empty in Hn. Qed.

Section collect_facts.
Context {O : MapRange}.

Lemma addPackage_spec f pl p :
  keyed pl → addPackage f pl p = addPackageSpec f pl p.
Proof.
  intros Hpl. unfold addPackage, addPackageSpec.
  destruct (keeps f p); [|done].
  destruct (all f).
  - destruct (pl !! Name p) as [vs|] eqn:Hvs; simpl.
    + apply map_eq. intros i. destruct (decide (Name p = i)) as [<-|].
      * by rewrite lookup_alter_eq, lookup_insert_eq, Hvs.
      * by rewrite lookup_alter_ne, lookup_insert_ne.
    + by rewrite alter_insert_eq.
  - rewrite dropOlder_alter by done. rewrite lookup_alter_eq.
    destruct (pl !! Name p) as [vs|] eqn:Hvs; simpl.
    + rewrite alter_alter_eq.
      apply map_eq. intros i. destruct (decide (Name p = i)) as [<-|].
      * by rewrite lookup_alter_eq, lookup_insert_eq, Hvs.
      * by rewrite lookup_alter_ne, lookup_insert_ne.
    + rewrite alter_insert_eq, insert_alter_eq.
      unfold keepNewer. by rewrite map_filter_empty.
Qed.

Lemma foldl_addPackage_spec f ps pl :
  keyed pl → foldl (addPackage f) pl ps = foldl (addPackageSpec f) pl ps.
Proof.
  revert pl. induction ps as [|p ps IH]; intros pl Hpl; simpl; [done|].
  rewrite addPackage_spec by done.
  by apply IH, keyed_addPackageSpec.
Qed.

Lemma collect_spec f ps : collect f ps = foldl (addPackageSpec f) ∅ ps.
Proof. apply foldl_addPackage_spec, keyed_empty. Qed.

Lemma collect_keyed f ps : keyed (collect f ps).
Proof. rewrite collect_spec. apply keyed_foldl_spec, keyed_empty. Qed.

(** Whatever the loop stores came from the loader and passed the
    four filters. *)
Lemma collect_allPackages f ps :
  allPackages (λ pp, pp ∈ ps ∧ keeps f pp = true) (collect f ps).
Proof.
  rewrite collect_spec.
  apply allPackages_foldl_spec; [apply allPackages_empty|auto].
Qed.

(** ** The keys and the records *)

Lemma elem_of_compositeKeys pl k :
  k ∈ compositeKeys pl ↔
  ∃ n vs v pp, pl !! n = Some vs ∧ vs !! v = Some pp ∧
               k = n +:+ separator +:+ v.
Proof.
  unfold compositeKeys. rewrite list_elem_of_bind. split.
  - intros (n & Hk & [vs Hvs]%elem_of_range). rewrite Hvs in Hk. simpl in Hk.
    apply list_elem_of_bind in Hk as (v & Hk & [pp Hpp]%elem_of_range).
    apply list_elem_of_singleton in Hk. eauto 10.
  - intros (n & vs & v & pp & Hvs & Hpp & ->). exists n. split.
    + rewrite Hvs. simpl. apply list_elem_of_bind. exists v. split.
      * by apply list_elem_of_singleton.
      * apply elem_of_range. eauto.
    + apply elem_of_range. eauto.
Qed.

End collect_facts.

Lemma sortStrings_perm (l1 l2 : list string) :
  l1 ≡ₚ l2 → sortStrings l1 = sortStrings l2.
Proof.
  intros Hl. unfold sortStrings.
  apply (StronglySorted_unique String.le).
  - apply StronglySorted_merge_sort; apply _.
  - apply StronglySorted_merge_sort; apply _.
  - by rewrite !merge_sort_Permutation.
Qed.

Lemma bind_perm_ext {A B} (g1 g2 : A → list B) (l1 l2 : list A) :
  (∀ x, g1 x ≡ₚ g2 x) → l1 ≡ₚ l2 → l1 ≫= g1 ≡ₚ l2 ≫= g2.
Proof.
  intros Hg Hl. rewrite Hl. clear l1 Hl.
  induction l2 as [|x l IH]; simpl; [done|].
  by rewrite Hg, IH.
Qed.

Lemma compositeKeys_perm (O1 O2 : MapRange) (pl : PackagesList) :
  @compositeKeys O1 pl ≡ₚ @compositeKeys O2 pl.
Proof.
  unfold compositeKeys. apply bind_perm_ext.
  - intros k. apply bind_perm_ext; [done|].
    by rewrite !range_perm.
  - by rewrite !range_perm.
Qed.

Lemma packageRecords_order (O1 O2 : MapRange) `{PackagePaths} (pl : PackagesList) :
  @packageRecords O1 _ pl = @packageRecords O2 _ pl.
Proof.
  unfold packageRecords.
  by rewrite (sortStrings_perm _ _ (compositeKeys_perm O1 O2 pl)).
Qed.

Lemma collect_order (O1 O2 : MapRange) f ps :
  @collect O1 f ps = @collect O2 f ps.
Proof. by rewrite !collect_spec. Qed.

Lemma getPackageOutput_order (O1 O2 : MapRange) `{PackagePaths, Json}
    (pl : PackagesList) :
  @getPackageOutput O1 _ _ pl = @getPackageOutput O2 _ _ pl.
Proof. unfold getPackageOutput. by rewrite (packageRecords_order O1 O2). Qed.

(** The response does not depend on the order in which the maps are
    walked. *)
Lemma searchHandler_order (O1 O2 : MapRange) `{PackagePaths, Json} query fetched :
  @searchHandler O1 _ _ query fetched = @searchHandler O2 _ _ query fetched.
Proof.
  unfold searchHandler. destruct (readParams query) as [f|e]; [|done].
  destruct fetched as [ps|e]; [|done].
  by rewrite (collect_order O1 O2), (getPackageOutput_order O1 O2).
Qed.

Section output_facts.
Context {O : MapRange} {paths : PackagePaths} {json : Json}.

Lemma elem_of_sorted_keys pl k :
  k ∈ sortStrings (compositeKeys pl) ↔ k ∈ compositeKeys pl.
Proof. unfold sortStrings. by rewrite merge_sort_Permutation. Qed.

(** With keys that split back into name and version, the records
    come out in the order of the sorted keys. *)
Lemma packageRecords_keys pl :
  keyed pl → allPackages noSeparator pl →
  compositeKey <$> packageRecords pl = sortStrings (compositeKeys pl).
Proof.
  intros Hkeyed Hsep. unfold packageRecords.
  rewrite <-list_fmap_compose.
  rewrite <-(list_fmap_id (sortStrings (compositeKeys pl))) at 2.
  apply list_fmap_ext. intros i k Hk%list_elem_of_lookup_2.
  apply elem_of_sorted_keys, elem_of_compositeKeys in Hk
    as (n & vs & v & pp & Hvs & Hpp & ->).
  destruct (Hkeyed _ _ _ _ Hvs Hpp) as [Hn Hv].
  destruct (Hsep _ _ _ _ Hvs Hpp) as [Hsn Hsv].
  rewrite Hn in Hsn. rewrite Hv in Hsv.
  simpl. change (n +:+ separator +:+ v) with (n +:+ String "@" v).
  rewrite Split_key by done. simpl.
  unfold lookupPackage. rewrite Hvs. simpl. rewrite Hpp. simpl.
  unfold compositeKey. simpl. by rewrite Hn, Hv.
Qed.



End output_facts.

Lemma ParseBool_error (v : string) :
  snd (strconv.ParseBool v) ≠ None → fst (strconv.ParseBool v) = false.
Proof. unfold strconv.ParseBool. by repeat case_bool_decide. Qed.

Lemma Get_delete_eq (query : url.Values) (key : string) :
  url.Get (delete key query) key = EmptyString.
Proof. unfold url.Get. by rewrite lookup_delete_eq. Qed.

Lemma Get_delete_ne (query : url.Values) (key k : string) :
  key ≠ k → url.Get (delete key query) k = url.Get query k.
Proof. intros. unfold url.Get. by rewrite lookup_delete_ne. Qed.

Lemma flag_unparsable (v : string) :
  snd (strconv.ParseBool v) ≠ None →
  (if nonEmpty v then fst (strconv.ParseBool v) else false) = false.
Proof. intros ?%ParseBool_error. by destruct (nonEmpty v). Qed.

Lemma readFilters_delete (query : url.Values) (key : string) :
  key = "all" ∨ key = "internal" →
  snd (strconv.ParseBool (url.Get query key)) ≠ None →
  readFilters query = readFilters (delete key query).
Proof.
  intros [->| ->] Herr; unfold readFilters;
    rewrite Get_delete_eq, !Get_delete_ne by done;
    rewrite (flag_unparsable _ Herr); reflexivity.
Qed.

Lemma readParams_delete_flag (query : url.Values) (key : string) f :
  key = "all" ∨ key = "internal" →
  readParams (delete key query) = Ok f →
  (if String.eqb key "all" then all f else internal f) = false.
Proof.
  intros Hkey. unfold readParams, readFilters.
  case_bool_decide; [|by intros [= <-]; destruct Hkey as [->| ->]].
  destruct Hkey as [->| ->]; rewrite Get_delete_eq;
    repeat case_match; intros [= <-]; done.
Qed.

Section claims_search.
Context {O : MapRange} {paths : PackagePaths} {json : Json}.


(** A newer version followed by an older one of the same name: the
    inner loop passes over the newer one, and the older one is stored
    next to it. *)
Lemma collect_newer_then_older f pn po :
  keeps f pn = true → keeps f po = true → all f = false →
  Name pn = Name po → Version pn ≠ Version po → IsNewer pn po = true →
  collect f [pn; po] !! Name pn ≫= (.!! Version pn) = Some pn ∧
  collect f [pn; po] !! Name po ≫= (.!! Version po) = Some po.
Proof.
  intros Hpn Hpo Hall Hname Hver Hnewer. rewrite collect_spec. simpl.
  unfold addPackageSpec. rewrite Hpn, Hpo, Hall, lookup_empty, <-Hname.
  rewrite !lookup_insert_eq. simpl. rewrite lookup_insert_eq.
  split; [|done].
  rewrite lookup_insert_ne by done.
  apply map_lookup_filter_Some. split; [|done].
  unfold keepNewer. rewrite map_filter_empty. apply lookup_insert_eq.
Qed.

(** C1: the loader hands over mysql 1.2.0 before mysql 1.0.0 and the
    query asks for nothing; the body lists both versions of mysql,
    where one entry with the greatest version is expected. *)
Theorem searchHandler_newest_first :
  searchHandler ∅ (Ok [mysql_1_2_0; mysql_1_0_0]) =
  match MarshalIndent [project mysql_1_0_0; project mysql_1_2_0] with
  | Ok data => Body data
  | Err e => NotFound (MarshalError e)
  end.
Proof.
  rewrite (searchHandler_order O trie_range). vm_compute. reflexivity.
Qed.

(** C3: the query names mysql and does not set [all]; the loader
    hands over mysql 1.0.0 and then mysql 1.2.0.  The body holds
    mysql 1.2.0 alone: the older version has been collapsed away. *)
Theorem searchHandler_package_collapses :
  searchHandler {[ "package" := ["mysql"] ]}
                (Ok [mysql_1_0_0; mysql_1_2_0; nginx_2_0_0]) =
  match MarshalIndent [project mysql_1_2_0] with
  | Ok data => Body data
  | Err e => NotFound (MarshalError e)
  end.
Proof. rewrite (searchHandler_order O trie_range). vm_compute. reflexivity. Qed.

(** C2, as amended: no round of the loop fails, and a package that
    passes the filters takes the slot of its name and version,
    replacing a package [p] with the same name and version that was
    put there before. *)
Theorem collect_duplicate_overwrites f ps1 p ps2 q :
  Name p = Name q → Version p = Version q → keeps f q = true →
  collect f (ps1 ++ p :: ps2 ++ [q]) !! Name p ≫= (.!! Version p) = Some q.
Proof.
  intros -> -> Hq. rewrite collect_spec.
  change (p :: ps2 ++ [q]) with ((p :: ps2) ++ [q]).
  rewrite app_assoc, foldl_app. simpl.
  unfold addPackageSpec. rewrite Hq.
  rewrite lookup_insert_eq. simpl. apply lookup_insert_eq.
Qed.



Lemma packageRecords_no_entries pl :
  allPackages (λ _, False) pl → packageRecords pl = [].
Proof.
  intros Hpl. unfold packageRecords.
  assert (compositeKeys pl = []) as ->; [|done].
  apply elem_of_nil_inv. intros k Hk.
  apply elem_of_compositeKeys in Hk as (n & vs & v & pp & Hvs & Hpp & _).
  by eapply Hpl.
Qed.

(** C7: when no package is selected, the body is the two bytes of
    the empty array. *)
Theorem searchHandler_empty_array query f ps :
  readParams query = Ok f →
  allPackages (λ _, False) (collect f ps) →
  searchHandler query (Ok ps) = Body "[]".
Proof.
  intros Hq Hnone. unfold searchHandler.
  rewrite Hq. unfold getPackageOutput.
  by rewrite packageRecords_no_entries.
Qed.

(** C8: when the query does not ask for internal packages, none is
    selected and no record carries the internal marker. *)
Theorem internal_packages_hidden f ps :
  internal f = false →
  allPackages (λ pp, Internal pp = false) (collect f ps) ∧
  Forall (λ r, r_internal r = None) (packageRecords (collect f ps)).
Proof.
  intros Hf.
  assert (allPackages (λ pp, Internal pp = false) (collect f ps)) as Hall.
  { intros n vs v pp Hvs Hpp.
    destruct (collect_allPackages f ps _ _ _ _ Hvs Hpp) as [_ Hkeep].
    unfold keeps in Hkeep. rewrite Hf in Hkeep.
    by destruct (Internal pp). }
  split; [done|]. apply Forall_forall. intros r Hr.
  apply list_elem_of_fmap in Hr as (k & -> & _). simpl.
  unfold lookupPackage.
  destruct (collect f ps !! _) as [vs|] eqn:Hvs; simpl; [|done].
  destruct (vs !! _) as [pp|] eqn:Hpp; simpl; [|done].
  by rewrite (Hall _ _ _ _ Hvs Hpp).
Qed.


(** C9: a value of [all] or of [internal] that is not a boolean is
    dropped without a word: the flag is false and the response is
    the one that the query without that parameter gets. *)
Theorem unparsable_flag_ignored query fetched key :
  key = "all" ∨ key = "internal" →
  snd (strconv.ParseBool (url.Get query key)) ≠ None →
  (∀ f, readParams query = Ok f →
        (if String.eqb key "all" then all f else internal f) = false) ∧
  searchHandler query fetched = searchHandler (delete key query) fetched.
Proof.
  intros Hkey Herr.
  assert (readParams query = readParams (delete key query)) as Hsame.
  { unfold readParams.
    destruct (decide (delete key query = ∅)) as [Hempty|Hne].
    - rewrite Hempty, map_size_empty. simpl.
      case_bool_decide; [|done].
      rewrite (readFilters_delete query key), Hempty by done.
      reflexivity.
    - assert (0 < size (delete key query))%nat as Hs'.
      { apply map_size_non_empty_iff in Hne. lia. }
      assert (0 < size query)%nat as Hs.
      { assert (size query ≠ 0%nat); [|lia].
        apply map_size_non_empty_iff. intros ->.
        apply Hne, delete_empty. }
      rewrite !bool_decide_true by done.
      by apply readFilters_delete. }
  split.
  - intros f. rewrite Hsame. apply readParams_delete_flag, Hkey.
  - unfold searchHandler. by rewrite Hsame.
Qed.

End claims_search.

(** * Facts about the dataset loader *)

Lemma scanDefault_ID paths d :
  DataSet.ID (DataSet.scanDefault paths d) = DataSet.ID d.
Proof.
  induction paths as [|path paths IH]; simpl; [done|].
  by destruct (DataSet.isDefault path).
Qed.



(** [Validate] writes to no field but the pipeline. *)
Lemma Validate_ID fs d :
  DataSet.ID (DataSet.Validate fs d).1 = DataSet.ID d.
Proof.
  unfold DataSet.Validate.
  destruct (Glob fs _) as [paths|e]; [|done].
  destruct (Strings.Contains _ _); [done|].
  set (d' := if String.eqb (DataSet.IngestPipeline d) EmptyString
             then DataSet.scanDefault paths d else d).
  assert (DataSet.ID d' = DataSet.ID d) as Hd'.
  { unfold d'. destruct (String.eqb _ _); [apply scanDefault_ID|done]. }
  by repeat case_match.
Qed.


(** X23: A manifest without an id: the dataset that [NewDataset] returns
    bears the name of the package, a dot and the name of the dataset
    directory.  The hyphen check has run on the empty id before, at
    the time of [Unpack], so that it never turns such a dataset down,
    whatever the two names hold: the default id goes unchecked. *)
Theorem NewDataset_default_id fs basePath p c :
  NewConfigWithFile fs (filepath.Join [basePath; "manifest.yml"]) = Some c →
  ucfg.id c = None →
  (∀ d, NewDataset fs basePath p = Ok d →
        DataSet.ID d = Name p +:+ "." +:+ filepath.Base basePath) ∧
  (∀ datasetPath package id,
     NewDataset fs basePath p ≠
     Err (DataSet.BuildingDataset datasetPath package
            (DataSet.InvalidIdentifier id))).
Proof.
  intros Hc Hid. unfold NewDataset. rewrite Hc.
  destruct (StatNotExist fs _); [by split|].
  unfold DataSet.Unpack.
  set (d0 := DataSet.populate c _).
  assert (DataSet.ID d0 = EmptyString) as Hd0.
  { unfold d0, DataSet.populate. simpl. by rewrite Hid. }
  destruct (DataSet.missingRequired c) as [field|]; [by split|].
  pose proof (Validate_ID fs d0) as HID. rewrite Hd0 in HID.
  split.
  - intros d. destruct (DataSet.Validate fs d0) as [d1 [err|]]; [done|].
    simpl in HID. rewrite HID. simpl. intros [= <-].
    by destruct (String.eqb (DataSet.Release d1) EmptyString).
  - intros datasetPath package id. clear HID.
    unfold DataSet.Validate. rewrite Hd0.
    change (Strings.Contains EmptyString "-") with false.
    destruct (Glob fs _) as [paths|e]; [|done].
    cbv beta iota zeta. repeat case_match; simplify_eq; congruence.
Qed.

(** X13: An id that the manifest sets and that holds a hyphen is turned
    down, the required fields being there and not empty, and the glob
    of the pipeline directory (under the base path of the manifest, if
    it sets one) going through. *)
Lemma NewDataset_explicit_hyphen fs basePath p c ident paths :
  StatNotExist fs (filepath.Join [basePath; "manifest.yml"]) = false →
  NewConfigWithFile fs (filepath.Join [basePath; "manifest.yml"]) = Some c →
  DataSet.missingRequired c = None →
  Glob fs (filepath.Join
             [filepath.Join [default basePath (ucfg.basepath c);
                             "elasticsearch"; "ingest-pipeline"]; "*"])
    = Ok paths →
  ucfg.id c = Some ident → Strings.Contains ident "-" = true →
  NewDataset fs basePath p =
  Err (DataSet.BuildingDataset (filepath.Base basePath) (Name p)
         (DataSet.InvalidIdentifier ident)).
Proof.
  intros Hstat Hc Hreq Hglob Hid Hhyphen. unfold NewDataset.
  rewrite Hstat, Hc. unfold DataSet.Unpack. rewrite Hreq.
  unfold DataSet.Validate, DataSet.pipelineDir, DataSet.populate.
  cbn [DataSet.BasePath DataSet.ID]. rewrite Hglob, Hid.
  cbn [from_option id]. by rewrite Hhyphen.
Qed.

(** * The theorems at work on sample inputs *)

Lemma collect_duplicate_overwrites_witness :
  Name mysql_1_0_0 = Name mysql_1_0_0_again ∧
  Version mysql_1_0_0 = Version mysql_1_0_0_again ∧
  @collect trie_range zeroParams
    ([] ++ mysql_1_0_0 :: [nginx_2_0_0] ++ [mysql_1_0_0_again])
    !! "mysql" ≫= (.!! "1.0.0") = Some mysql_1_0_0_again.
Proof.
  split; [reflexivity|]. split; [reflexivity|].
  apply (collect_duplicate_overwrites (O:=trie_range) zeroParams
           [] mysql_1_0_0 [nginx_2_0_0] mysql_1_0_0_again);
    reflexivity.
Defined.

(** C2: two copies of mysql 1.0.0 go in, no error comes out, and the
    index holds the second copy where the first one was. *)
Lemma duplicate_version_overwritten :
  Description
    (lookupPackage
       (@collect trie_range zeroParams [mysql_1_0_0; mysql_1_0_0_again])
       "mysql" "1.0.0") = "MySQL, second copy" ∧
  @searchHandler trie_range samplePaths sampleJson ∅
    (Ok [mysql_1_0_0; mysql_1_0_0_again]) = Body "mysql@1.0.0".
Proof. split; vm_compute; reflexivity. Qed.




(** The separator in a name: the key of [b@c] splits into three parts,
    the lookup under [b] and [c] finds nothing, and the record of the
    zero package follows that of [a]. *)
Example separator_in_name :
  compositeKey <$>
    @packageRecords trie_range samplePaths
      (@collect trie_range zeroParams
         [samplePackage "a" "1.0.0" "A" false;
          samplePackage "b@c" "1.0.0" "B" false])
  = ["a@1.0.0"; "@"] ∧
  ¬ String.le "a@1.0.0" "@".
Proof. split; [vm_compute; reflexivity|]. vm_compute. exact id. Qed.

Lemma searchHandler_empty_array_witness :
  readParams ∅ = Ok zeroParams ∧
  @searchHandler trie_range samplePaths sampleJson ∅ (Ok [hidden_0_1_0])
  = Body "[]".
Proof.
  split; [reflexivity|].
  apply (searchHandler_empty_array (O:=trie_range) ∅ zeroParams [hidden_0_1_0]);
    [reflexivity|].
  intros n vs v pp Hvs. vm_compute in Hvs. discriminate.
Defined.

Lemma internal_packages_hidden_witness :
  Forall (λ r, r_internal r = None)
    (@packageRecords trie_range samplePaths
       (@collect trie_range zeroParams [hidden_0_1_0; mysql_1_0_0])).
Proof.
  apply (internal_packages_hidden (O:=trie_range) zeroParams
           [hidden_0_1_0; mysql_1_0_0]).
  reflexivity.
Defined.

Lemma unparsable_flag_ignored_witness :
  snd (strconv.ParseBool (url.Get {[ "all" := ["yes"] ]} "all")) ≠ None ∧
  @searchHandler trie_range samplePaths sampleJson
    {[ "all" := ["yes"] ]} (Ok [mysql_1_0_0; mysql_1_2_0]) =
  @searchHandler trie_range samplePaths sampleJson
    (delete "all" {[ "all" := ["yes"] ]}) (Ok [mysql_1_0_0; mysql_1_2_0]).
Proof.
  split; [discriminate|].
  apply (unparsable_flag_ignored (O:=trie_range)
           {[ "all" := ["yes"] ]} (Ok [mysql_1_0_0; mysql_1_2_0]) "all");
    [left; reflexivity|discriminate].
Defined.



Lemma NewDataset_default_id_witness :
  NewConfigWithFile
    (sampleDisk "/packages/my-pkg-1.0.0/dataset/access" [] (sampleConfig None))
    (filepath.Join ["/packages/my-pkg-1.0.0/dataset/access"; "manifest.yml"])
  = Some (sampleConfig None) ∧
  NewDataset
    (sampleDisk "/packages/my-pkg-1.0.0/dataset/access" [] (sampleConfig None))
    "/packages/my-pkg-1.0.0/dataset/access" my_pkg_1_0_0
  ≠ Err (DataSet.BuildingDataset "access" "my-pkg"
           (DataSet.InvalidIdentifier "my-pkg.access")).
Proof.
  split; [reflexivity|].
  apply (NewDataset_default_id
           (sampleDisk "/packages/my-pkg-1.0.0/dataset/access" []
              (sampleConfig None))
           "/packages/my-pkg-1.0.0/dataset/access" my_pkg_1_0_0
           (sampleConfig None));
    reflexivity.
Defined.

(** C10: the manifest sets no id and the package is called [my-pkg].
    The id defaults to [my-pkg.access], as the claim says; but the
    dataset is built with that id, hyphen and all, where the claim has
    the hyphen check turn it down with the error on the identifier:
    the check ran on the empty id, before the default was set. *)
Lemma NewDataset_hyphenated_package :
  NewDataset
    (sampleDisk "/packages/my-pkg-1.0.0/dataset/access" [] (sampleConfig None))
    "/packages/my-pkg-1.0.0/dataset/access" my_pkg_1_0_0 =
  Ok {| DataSet.ID := "my-pkg.access"; DataSet.Title := "Access";
        DataSet.Release := "beta"; DataSet.Type_ := "logs";
        DataSet.IngestPipeline := EmptyString;
        DataSet.Streams := [sampleStream]; DataSet.Package := "my-pkg";
        DataSet.Path := "access";
        DataSet.BasePath := "/packages/my-pkg-1.0.0/dataset/access" |} ∧
  Strings.Contains "my-pkg.access" "-" = true.
Proof. split; vm_compute; reflexivity. Qed.

(** * Further facts about the search handler *)

Lemma addPackageSpec_lookup f pl q n v pp :
  addPackageSpec f pl q !! n ≫= (.!! v) = Some pp ↔
  if keeps f q then
    (n = Name q ∧ v = Version q ∧ pp = q) ∨
    ((n ≠ Name q ∨ v ≠ Version q) ∧
     pl !! n ≫= (.!! v) = Some pp ∧
     (n = Name q → all f = true ∨ IsNewer pp q = true))
  else pl !! n ≫= (.!! v) = Some pp.
Proof.
  unfold addPackageSpec. destruct (keeps f q); [|done].
  destruct (decide (n = Name q)) as [->|Hn].
  - rewrite lookup_insert_eq. simpl.
    destruct (decide (v = Version q)) as [->|Hv].
    + rewrite lookup_insert_eq. intuition congruence.
    + rewrite lookup_insert_ne by done.
      destruct (pl !! Name q) as [vs|] eqn:Hvs; simpl.
      * destruct (all f).
        -- intuition congruence.
        -- unfold keepNewer. rewrite map_lookup_filter_Some. simpl.
           intuition congruence.
      * assert ((if all f then (∅ : gmap string Package) else keepNewer q ∅) = ∅)
          as ->.
        { destruct (all f); [done|]. unfold keepNewer. apply map_filter_empty. }
        rewrite lookup_empty. intuition congruence.
  - rewrite lookup_insert_ne by done. intuition congruence.
Qed.

Lemma last_occurrence_unique {A} (P : A → Prop) (l1 l2 l1' l2' : list A) x x' :
  l1 ++ x :: l2 = l1' ++ x' :: l2' → P x → P x' →
  (∀ y, y ∈ l2 → ¬ P y) → (∀ y, y ∈ l2' → ¬ P y) →
  l1 = l1' ∧ x = x' ∧ l2 = l2'.
Proof.
  revert l1'. induction l1 as [|a l1 IH]; intros [|a' l1'] Heq Hx Hx' Hl2 Hl2';
    simplify_eq/=.
  - done.
  - destruct (Hl2 x'); [|done]. rewrite elem_of_app, elem_of_cons. auto.
  - destruct (Hl2' x); [|done]. rewrite elem_of_app, elem_of_cons. auto.
  - destruct (IH l1') as (-> & -> & ->); done.
Qed.

Section more_search.
Context {O : MapRange}.

Lemma collect_snoc f ps q :
  collect f (ps ++ [q]) = addPackageSpec f (collect f ps) q.
Proof. by rewrite !collect_spec, foldl_app. Qed.

(** X1: With [all] set nothing is collapsed: a name and version is in
    the map exactly when a package that passes the filters bears
    them. *)
Theorem collect_all_versions f ps n v :
  all f = true →
  is_Some (collect f ps !! n ≫= (.!! v)) ↔
  ∃ p, p ∈ ps ∧ keeps f p = true ∧ Name p = n ∧ Version p = v.
Proof.
  intros Hall. induction ps as [|q ps IH] using rev_ind.
  - unfold collect. simpl. rewrite lookup_empty. simpl. split.
    + by intros [? ?].
    + intros (p & Hp & _). by apply elem_of_nil in Hp.
  - rewrite collect_snoc. split.
    + intros [pp Hpp]. apply addPackageSpec_lookup in Hpp.
      destruct (keeps f q) eqn:Hq.
      * destruct Hpp as [(-> & -> & ->)|(_ & Hpp & _)].
        -- exists q. rewrite elem_of_app, list_elem_of_singleton. auto.
        -- destruct (proj1 IH (mk_is_Some _ _ Hpp)) as (p & ? & ?).
           exists p. rewrite elem_of_app. auto.
      * destruct (proj1 IH (mk_is_Some _ _ Hpp)) as (p & ? & ?).
        exists p. rewrite elem_of_app. auto.
    + intros (p & Hp & Hkeep & Hn & Hv).
      apply elem_of_app in Hp as [Hp|Hp%list_elem_of_singleton].
      * destruct (proj2 IH) as [pp Hpp]; [eauto|].
        destruct (keeps f q) eqn:Hq.
        -- destruct (decide (n = Name q ∧ v = Version q)) as [[-> ->]|Hne].
           ++ exists q. apply addPackageSpec_lookup. rewrite Hq. by left.
           ++ exists pp. apply addPackageSpec_lookup. rewrite Hq. right.
              split; [|by auto].
              destruct (decide (n = Name q)); [|by left].
              destruct (decide (v = Version q)); [|by right].
              destruct Hne; done.
        -- exists pp. apply addPackageSpec_lookup. by rewrite Hq.
      * subst p. exists q. apply addPackageSpec_lookup. rewrite Hkeep.
        left. auto.
Qed.

Lemma collect_survivors f ps n v pp :
  all f = false →
  collect f ps !! n ≫= (.!! v) = Some pp ↔
  ∃ l1 l2, ps = l1 ++ pp :: l2 ∧ keeps f pp = true ∧
           Name pp = n ∧ Version pp = v ∧
           ∀ q, q ∈ l2 → keeps f q = true → Name q = n →
                IsNewer pp q = true ∧ Version q ≠ v.
Proof.
  intros Hall. revert pp. induction ps as [|q ps IH] using rev_ind; intros pp.
  - unfold collect. simpl. rewrite lookup_empty. simpl. split; [done|].
    intros (l1 & l2 & Hps & _). by destruct l1.
  - rewrite collect_snoc, addPackageSpec_lookup. split.
    + intros Hpp. destruct (keeps f q) eqn:Hq.
      * destruct Hpp as [(-> & -> & ->)|(Hne & Hpp & Hnew)].
        -- exists ps, []. split_and!; [done..|].
           intros ? Hin. by apply elem_of_nil in Hin.
        -- apply IH in Hpp as (l1 & l2 & -> & Hkeep & Hn & Hv & Hl2).
           exists l1, (l2 ++ [q]). rewrite <-app_assoc. simpl.
           split_and!; [done..|].
           intros q' [Hq'|Hq'%list_elem_of_singleton]%elem_of_app Hk' Hn';
             [by apply Hl2|].
           subst q'. destruct (Hnew (eq_sym Hn')) as [Ht|Hnewer]; [congruence|].
           split; [done|]. intros Hv'. destruct Hne as [Hne|Hne]; congruence.
      * apply IH in Hpp as (l1 & l2 & -> & Hkeep & Hn & Hv & Hl2).
        exists l1, (l2 ++ [q]). rewrite <-app_assoc. simpl.
        split_and!; [done..|].
        intros q' [Hq'|Hq'%list_elem_of_singleton]%elem_of_app Hk' Hn';
          [by apply Hl2|congruence].
    + intros (l1 & l2 & Hps & Hkeep & Hn & Hv & Hl2).
      destruct l2 as [|x l2 _] using rev_ind.
      * apply app_inj_tail in Hps as [-> ->]. rewrite Hkeep. left. auto.
      * change (pp :: l2 ++ [x]) with ((pp :: l2) ++ [x]) in Hps.
        rewrite app_assoc in Hps. apply app_inj_tail in Hps as [-> ->].
        assert (collect f (l1 ++ pp :: l2) !! n ≫= (.!! v) = Some pp) as Hpp.
        { apply IH. exists l1, l2. split_and!; [done..|].
          intros q' Hq'. apply Hl2. rewrite elem_of_app. auto. }
        destruct (keeps f x) eqn:Hx; [|done].
        right. destruct (decide (n = Name x)) as [Hnx|Hnx].
        -- destruct (Hl2 x) as [Hnewer Hvx]; try done.
           { rewrite elem_of_app, list_elem_of_singleton. auto. }
           split; [right; congruence|]. split; [done|auto].
        -- split; [by left|]. split; [done|]. intros. done.
Qed.

(** X2: Without [all]: a package is in the map exactly when it passed the
    filters and every package of its name that passed them after it
    is older and has another version string. *)
Theorem collect_newest_survivors f ps n v pp :
  all f = false →
  collect f ps !! n ≫= (.!! v) = Some pp ↔
  ∃ l1 l2, ps = l1 ++ pp :: l2 ∧ keeps f pp = true ∧
           Name pp = n ∧ Version pp = v ∧
           ∀ q, q ∈ l2 → keeps f q = true → Name q = n →
                IsNewer pp q = true ∧ Version q ≠ v.
Proof. apply collect_survivors. Qed.

(** X3: When no package is followed by an older one of its name, the map
    holds one version for every name it holds: the one that came
    last. *)
Theorem collect_oldest_first f ps n vs :
  all f = false →
  (∀ l1 p l2 q l3, ps = l1 ++ p :: l2 ++ q :: l3 →
     Name p = Name q → IsNewer p q = false) →
  collect f ps !! n = Some vs →
  ∃ l1 q l2, ps = l1 ++ q :: l2 ∧ vs = {[ Version q := q ]} ∧
             keeps f q = true ∧ Name q = n ∧
             ∀ p, p ∈ l2 → keeps f p = true → Name p ≠ n.
Proof.
  intros Hall Horder Hvs.
  assert (∃ v pp, vs !! v = Some pp) as (v & pp & Hpp).
  { revert Hvs. rewrite collect_spec.
    assert (∀ pl, (∀ n vs, pl !! n = Some vs → vs ≠ ∅) →
              ∀ n vs, foldl (addPackageSpec f) pl ps !! n = Some vs → vs ≠ ∅)
      as Hne.
    { clear. induction ps as [|p ps IH]; intros pl Hpl; simpl; [done|].
      apply IH. intros n vs. unfold addPackageSpec.
      destruct (keeps f p); [|by apply Hpl].
      destruct (decide (Name p = n)) as [<-|].
      - rewrite lookup_insert_eq. intros [= <-]. apply insert_non_empty.
      - rewrite lookup_insert_ne by done. apply Hpl. }
    intros Hvs. apply Hne in Hvs.
    - apply map_choose in Hvs. done.
    - intros ??. by rewrite lookup_empty. }
  assert (collect f ps !! n ≫= (.!! v) = Some pp) as Hslot
    by (by rewrite Hvs).
  apply collect_survivors in Hslot
    as (l1 & l2 & Hps & Hkeep & Hn & Hv & Hl2); [|done].
  exists l1, pp, l2. split; [done|].
  assert (∀ p, p ∈ l2 → keeps f p = true → Name p ≠ n) as Hlast.
  { intros p Hp Hk Hnp. destruct (Hl2 p Hp Hk Hnp) as [Hnewer _].
    apply list_elem_of_split in Hp as (l2a & l2b & ->).
    rewrite (Horder l1 pp l2a p l2b) in Hnewer; [done|by rewrite Hps|congruence]. }
  split; [|by auto].
  apply map_eq. intros v'. destruct (vs !! v') as [pp'|] eqn:Hpp'.
  - assert (collect f ps !! n ≫= (.!! v') = Some pp') as Hslot'
      by (by rewrite Hvs).
    apply collect_survivors in Hslot'
      as (l1' & l2' & Hps' & Hkeep' & Hn' & Hv' & Hl2'); [|done].
    assert (l1' = l1 ∧ pp' = pp ∧ l2' = l2) as (_ & -> & _).
    { apply (last_occurrence_unique (λ p, keeps f p = true ∧ Name p = n));
        [congruence|done|done| |].
      - intros p Hp [Hk Hnp].
        destruct (Hl2' p Hp Hk Hnp) as [Hnewer _].
        apply list_elem_of_split in Hp as (l2a & l2b & ->).
        rewrite (Horder l1' pp' l2a p l2b) in Hnewer;
          [done|by rewrite Hps'|congruence].
      - intros p Hp [Hk Hnp]. by apply (Hlast p). }
    rewrite <-Hv', Hv. by rewrite lookup_singleton_eq.
  - destruct (decide (Version pp = v')) as [<-|Hne].
    + congruence.
    + by rewrite lookup_singleton_ne.
Qed.

End more_search.

Lemma key_inj (c : ascii) (n1 n2 v1 v2 : string) :
  Strings.HasByte c n1 = false → Strings.HasByte c n2 = false →
  n1 +:+ String c v1 = n2 +:+ String c v2 → n1 = n2 ∧ v1 = v2.
Proof.
  revert n2. induction n1 as [|a n1 IH]; intros [|a' n2] H1 H2 Heq;
    simpl in *; simplify_eq.
  - done.
  - rewrite Ascii.eqb_refl in H2. done.
  - rewrite Ascii.eqb_refl in H1. done.
  - apply orb_false_elim in H1 as [_ H1]. apply orb_false_elim in H2 as [_ H2].
    destruct (IH n2 H1 H2) as [-> ->]; done.
Qed.

Lemma keeps_true f p :
  keeps f p = true ↔
  (Internal p = true → internal f = true) ∧
  (category f ≠ EmptyString → HasCategory p (category f) = true) ∧
  (∀ k, kibanaVersion f = Some k → HasKibanaVersion p k = true) ∧
  (packageQuery f ≠ EmptyString → Name p = packageQuery f).
Proof.
  unfold keeps, nonEmpty.
  destruct (Internal p), (internal f); simpl;
    try (split; [done|intros (H & _); by specialize (H eq_refl)]);
  (destruct (String.eqb_spec (category f) EmptyString) as [Hc|Hc]; simpl;
   [|destruct (HasCategory p (category f)); simpl;
     [|split; [done|intros (_ & H & _); by specialize (H Hc)]]]);
  (destruct (kibanaVersion f) as [k|]; simpl;
   [destruct (HasKibanaVersion p k) eqn:Hk; simpl;
    [|split; [done|intros (_ & _ & H & _); specialize (H k eq_refl); congruence]]|]);
  (destruct (String.eqb_spec (packageQuery f) EmptyString) as [Hq|Hq]; simpl;
   [|destruct (String.eqb_spec (packageQuery f) (Name p)) as [Hn|Hn]; simpl;
     [|split; [done|intros (_ & _ & _ & H); by specialize (H Hq)]]]);
  (split; [intros _|done]); split_and!; try done; try congruence.
Qed.

Section more_output.
Context {O : MapRange} {paths : PackagePaths} {json : Json}.

(** X4: The outcome for one name is that of the packages of that name
    alone. *)
Theorem collect_by_name f ps n :
  collect f ps !! n = collect f (filter (λ p, Name p = n) ps) !! n.
Proof.
  rewrite !collect_spec.
  assert (∀ pl1 pl2 : PackagesList, pl1 !! n = pl2 !! n →
    foldl (addPackageSpec f) pl1 ps !! n =
    foldl (addPackageSpec f) pl2 (filter (λ p, Name p = n) ps) !! n) as Hgen.
  { induction ps as [|p ps IH]; intros pl1 pl2 Hpl; simpl; [done|].
    destruct (decide (Name p = n)) as [Hn|Hn].
    - rewrite filter_cons_True by done. simpl. apply IH.
      unfold addPackageSpec. destruct (keeps f p); [|done].
      by rewrite Hn, !lookup_insert_eq, Hpl.
    - rewrite filter_cons_False by done. apply IH.
      unfold addPackageSpec. destruct (keeps f p); [|done].
      by rewrite lookup_insert_ne. }
  by apply Hgen.
Qed.

Lemma compositeKeys_NoDup pl :
  keyed pl → allPackages noSeparator pl → NoDup (compositeKeys pl).
Proof.
  intros Hkeyed Hsep. unfold compositeKeys.
  assert (∀ {A} (m : gmap string A), NoDup (range m)) as Hrange.
  { intros A m. rewrite range_perm. apply NoDup_fst_map_to_list. }
  assert (∀ n v, n ∈ range pl → v ∈ range (default ∅ (pl !! n)) →
            Strings.HasByte "@" n = false) as Hname.
  { intros n v [vs Hvs]%elem_of_range Hv. rewrite Hvs in Hv. simpl in Hv.
    apply elem_of_range in Hv as [pp Hpp].
    destruct (Hkeyed _ _ _ _ Hvs Hpp) as [<- _].
    by destruct (Hsep _ _ _ _ Hvs Hpp). }
  apply NoDup_bind; [| |apply Hrange].
  - intros n1 n2 k Hn1 Hn2
      (v1 & ->%list_elem_of_singleton & Hv1)%list_elem_of_bind
      (v2 & Hk%list_elem_of_singleton & Hv2)%list_elem_of_bind.
    apply key_inj in Hk as [? _]; eauto.
  - intros n Hn. apply NoDup_bind; [| |apply Hrange].
    + intros v1 v2 k _ _ ->%list_elem_of_singleton Hk%list_elem_of_singleton.
      apply (inj (String.app n)) in Hk.
      by apply (inj (String.app separator)) in Hk.
    + intros. apply NoDup_singleton.
Qed.

Lemma packageRecords_elem f ps r :
  Forall noSeparator ps →
  r ∈ packageRecords (collect f ps) ↔
  ∃ n v pp, collect f ps !! n ≫= (.!! v) = Some pp ∧ r = project pp.
Proof.
  intros Hps.
  assert (keyed (collect f ps)) as Hkeyed by apply collect_keyed.
  assert (allPackages noSeparator (collect f ps)) as Hsep.
  { intros n vs v pp Hvs Hpp.
    destruct (collect_allPackages f ps _ _ _ _ Hvs Hpp) as [Hin _].
    by eapply Forall_forall in Hps. }
  unfold packageRecords. rewrite list_elem_of_fmap. split.
  - intros (k & -> & Hk).
    apply elem_of_sorted_keys, elem_of_compositeKeys in Hk
      as (n & vs & v & pp & Hvs & Hpp & ->).
    destruct (Hkeyed _ _ _ _ Hvs Hpp) as [Hn Hv].
    destruct (Hsep _ _ _ _ Hvs Hpp) as [Hsn Hsv].
    rewrite Hn in Hsn. rewrite Hv in Hsv.
    exists n, v, pp. simpl.
    change (n +:+ separator +:+ v) with (n +:+ String "@" v).
    rewrite Split_key by done. simpl.
    unfold lookupPackage. rewrite Hvs. simpl. by rewrite Hpp.
  - intros (n & v & pp & Hslot & ->).
    destruct (collect f ps !! n) as [vs|] eqn:Hvs; [|done]. simpl in Hslot.
    destruct (Hkeyed _ _ _ _ Hvs Hslot) as [Hn Hv].
    destruct (Hsep _ _ _ _ Hvs Hslot) as [Hsn Hsv].
    rewrite Hn in Hsn. rewrite Hv in Hsv.
    exists (n +:+ separator +:+ v). split.
    + simpl. change (n +:+ separator +:+ v) with (n +:+ String "@" v).
      rewrite Split_key by done. simpl.
      unfold lookupPackage. rewrite Hvs. simpl. by rewrite Hslot.
    + apply elem_of_sorted_keys, elem_of_compositeKeys. eauto 10.
Qed.

(** X5: When the separator occurs in no name and no version, the records
    are the projections of the packages that the map holds, no more
    and no less. *)
Theorem packageRecords_stored f ps r :
  Forall noSeparator ps →
  r ∈ packageRecords (collect f ps) ↔
  ∃ n v pp, collect f ps !! n ≫= (.!! v) = Some pp ∧ r = project pp.
Proof. apply packageRecords_elem. Qed.

(** X6: Every record is the projection of a package that the loader
    supplied and that none of the four filters turns down. *)
Theorem packageRecords_filtered f ps r :
  Forall noSeparator ps →
  r ∈ packageRecords (collect f ps) →
  ∃ p, p ∈ ps ∧ r = project p ∧
       (Internal p = true → internal f = true) ∧
       (category f ≠ EmptyString → HasCategory p (category f) = true) ∧
       (∀ k, kibanaVersion f = Some k → HasKibanaVersion p k = true) ∧
       (packageQuery f ≠ EmptyString → Name p = packageQuery f).
Proof.
  intros Hps (n & v & pp & Hslot & ->)%packageRecords_elem; [|done].
  destruct (collect f ps !! n) as [vs|] eqn:Hvs; [|done]. simpl in Hslot.
  destruct (collect_allPackages f ps _ _ _ _ Hvs Hslot) as [Hin Hkeep].
  exists pp. split; [done|]. split; [done|]. by apply keeps_true.
Qed.

(** X7: No two records bear the same name and version. *)
Theorem packageRecords_distinct f ps :
  Forall noSeparator ps →
  NoDup (compositeKey <$> packageRecords (collect f ps)).
Proof.
  intros Hps.
  assert (allPackages noSeparator (collect f ps)) as Hsep.
  { intros n vs v pp Hvs Hpp.
    destruct (collect_allPackages f ps _ _ _ _ Hvs Hpp) as [Hin _].
    by eapply Forall_forall in Hps. }
  rewrite packageRecords_keys by (apply collect_keyed || done).
  unfold sortStrings. rewrite merge_sort_Permutation.
  apply compositeKeys_NoDup; [apply collect_keyed|done].
Qed.

End more_output.

(** X8: A parameter that is none of the five that the handler reads
    changes nothing. *)
Theorem readParams_other_parameter (query : url.Values) key values :
  key ∉ ["kibana"; "category"; "package"; "all"; "internal"] →
  readParams (<[key := values]> query) = readParams query.
Proof.
  intros Hkey.
  assert (∀ k, k ∈ ["kibana"; "category"; "package"; "all"; "internal"] →
            url.Get (<[key := values]> query) k = url.Get query k) as Hget.
  { intros k Hk. unfold url.Get. rewrite lookup_insert_ne; [done|].
    intros ->. done. }
  assert (readFilters (<[key := values]> query) = readFilters query) as Hsame.
  { unfold readFilters. rewrite !Hget; [done|set_solver..]. }
  unfold readParams. rewrite Hsame.
  assert (0 < size (<[key := values]> query))%nat as Hs.
  { assert (size (<[key := values]> query) ≠ 0%nat); [|lia].
    apply map_size_non_empty_iff, insert_non_empty. }
  rewrite (bool_decide_true _ Hs).
  case_bool_decide as Hq; [done|].
  assert (query = ∅) as ->.
  { apply map_size_empty_iff. lia. }
  reflexivity.
Qed.

(** * Further facts about the dataset loader *)

Lemma scanDefault_cases paths d :
  DataSet.scanDefault paths d = d ∨
  DataSet.scanDefault paths d = DataSet.setIngestPipeline "default" d.
Proof.
  induction paths as [|path paths IH]; simpl; [by left|].
  destruct (DataSet.isDefault path); [by right|done].
Qed.

Lemma Validate_cases fs d :
  (DataSet.Validate fs d).1 = d ∨
  (DataSet.IngestPipeline d = EmptyString ∧
   (DataSet.Validate fs d).1 = DataSet.setIngestPipeline "default" d).
Proof.
  unfold DataSet.Validate.
  destruct (Glob fs _) as [paths|e]; [|by left].
  destruct (Strings.Contains _ _); [by left|].
  destruct (String.eqb_spec (DataSet.IngestPipeline d) EmptyString) as [Hip|Hip].
  - destruct (scanDefault_cases paths d) as [-> | ->].
    + left. by repeat case_match.
    + right. split; [done|]. by repeat case_match.
  - left. by repeat case_match.
Qed.

(** X9: [Validate] leaves the dataset as it is, or fills in the default
    pipeline where none was set; it writes to nothing else. *)
Theorem Validate_frame fs d :
  (DataSet.Validate fs d).1 = d ∨
  (DataSet.IngestPipeline d = EmptyString ∧
   (DataSet.Validate fs d).1 = DataSet.setIngestPipeline "default" d).
Proof. apply Validate_cases. Qed.


Lemma Validate_None fs d d' :
  DataSet.Validate fs d = (d', None) →
  Strings.Contains (DataSet.ID d') "-" = false ∧
  ∃ paths, Glob fs (filepath.Join [DataSet.pipelineDir d; "*"]) = Ok paths ∧
    if String.eqb (DataSet.IngestPipeline d') EmptyString then paths = []
    else StatNotExist fs
           (filepath.Join [DataSet.pipelineDir d;
                           DataSet.IngestPipeline d' +:+ ".yml"]) = false
         ∨ StatNotExist fs
             (filepath.Join [DataSet.pipelineDir d;
                             DataSet.IngestPipeline d' +:+ ".json"]) = false.
Proof.
  intros Hval. pose proof (Validate_ID fs d) as HID. rewrite Hval in HID.
  simpl in HID. rewrite HID. revert Hval. unfold DataSet.Validate.
  destruct (Glob fs _) as [paths|e]; [|done].
  destruct (Strings.Contains _ _); [done|].
  set (d1 := if String.eqb (DataSet.IngestPipeline d) EmptyString
             then DataSet.scanDefault paths d else d).
  cbv zeta. unfold nonEmpty.
  destruct (String.eqb (DataSet.IngestPipeline d1) EmptyString) eqn:Hip; simpl.
  - case_bool_decide as Hlen; [done|]. intros [= <-].
    split; [done|]. exists paths. split; [done|]. rewrite Hip.
    destruct paths; [done|simpl in Hlen; lia].
  - destruct (StatNotExist fs _) eqn:Hyml; simpl.
    + destruct (StatNotExist fs _) eqn:Hjson at 1; [done|]. intros [= <-].
      split; [done|]. exists paths. split; [done|]. rewrite Hip. by right.
    + intros [= <-].
      split; [done|]. exists paths. split; [done|]. rewrite Hip. by left.
Qed.

(** X11: What holds of a dataset that passed: no hyphen in its id, and
    either no pipeline and an empty pipeline directory, or a pipeline
    with one of its two files on the disk. *)
Theorem Validate_passed fs d d' :
  DataSet.Validate fs d = (d', None) →
  Strings.Contains (DataSet.ID d') "-" = false ∧
  ∃ paths, Glob fs (filepath.Join [DataSet.pipelineDir d; "*"]) = Ok paths ∧
    if String.eqb (DataSet.IngestPipeline d') EmptyString then paths = []
    else StatNotExist fs
           (filepath.Join [DataSet.pipelineDir d;
                           DataSet.IngestPipeline d' +:+ ".yml"]) = false
         ∨ StatNotExist fs
             (filepath.Join [DataSet.pipelineDir d;
                             DataSet.IngestPipeline d' +:+ ".json"]) = false.
Proof. apply Validate_None. Qed.

Lemma Validate_other_fields fs d :
  let d' := (DataSet.Validate fs d).1 in
  DataSet.Title d' = DataSet.Title d ∧ DataSet.Release d' = DataSet.Release d ∧
  DataSet.Type_ d' = DataSet.Type_ d ∧ DataSet.Streams d' = DataSet.Streams d ∧
  DataSet.Package d' = DataSet.Package d ∧ DataSet.Path d' = DataSet.Path d ∧
  DataSet.BasePath d' = DataSet.BasePath d.
Proof.
  destruct (Validate_cases fs d) as [-> |[_ ->]]; done.
Qed.

Lemma missingRequired_None c :
  DataSet.missingRequired c = None →
  (∃ t, ucfg.title c = Some t ∧ t ≠ EmptyString) ∧
  (∃ ty, ucfg.type c = Some ty ∧ ty ≠ EmptyString) ∧
  ∃ s ss, ucfg.streams c = Some (s :: ss) ∧
          Forall (λ s, Stream.Input s ≠ EmptyString) (s :: ss).
Proof.
  unfold DataSet.missingRequired.
  case_bool_decide as Ht; [done|]. case_bool_decide as Hty; [done|].
  destruct (ucfg.streams c) as [[|s ss]|]; [done| |done].
  destruct (forallb _ _) eqn:Hall; [intros _|done].
  split_and!.
  - destruct (ucfg.title c) as [t|]; [|by destruct Ht; left].
    exists t. split; [done|]. intros ->. destruct Ht. by right.
  - destruct (ucfg.type c) as [ty|]; [|by destruct Hty; left].
    exists ty. split; [done|]. intros ->. destruct Hty. by right.
  - exists s, ss. split; [done|].
    apply Forall_forall. intros x Hx.
    rewrite forallb_forall in Hall. specialize (Hall x).
    rewrite <-list_elem_of_In in Hall. specialize (Hall Hx).
    unfold nonEmpty in Hall. intros Hin. by rewrite Hin in Hall.
Qed.

(** X12: What holds of a dataset that [NewDataset] returns: it carries the
    package name, the directory name and the path it was built from,
    or what the manifest puts in their place under the keys package,
    path and basepath; id, release, title and type are not empty;
    there is at least one stream and every stream names its input;
    the id holds no hyphen unless it is the default one. *)
Theorem NewDataset_built fs basePath p d :
  NewDataset fs basePath p = Ok d →
  ∃ c,
    NewConfigWithFile fs (filepath.Join [basePath; "manifest.yml"]) = Some c ∧
    DataSet.Package d = default (Name p) (ucfg.package c) ∧
    DataSet.Path d = default (filepath.Base basePath) (ucfg.path c) ∧
    DataSet.BasePath d = default basePath (ucfg.basepath c) ∧
    DataSet.ID d ≠ EmptyString ∧
    DataSet.Release d ≠ EmptyString ∧
    DataSet.Title d ≠ EmptyString ∧
    DataSet.Type_ d ≠ EmptyString ∧
    DataSet.Streams d ≠ [] ∧
    Forall (λ s, Stream.Input s ≠ EmptyString) (DataSet.Streams d) ∧
    (Strings.Contains (DataSet.ID d) "-" = true →
     DataSet.ID d = Name p +:+ "." +:+ filepath.Base basePath).
Proof.
  unfold NewDataset.
  destruct (StatNotExist fs _); [done|].
  unfold DataSet.Unpack.
  destruct (NewConfigWithFile fs _) as [c|]; [|done].
  set (d0 := DataSet.populate c _).
  destruct (DataSet.missingRequired c) as [field|] eqn:Hreq; [done|].
  apply missingRequired_None in Hreq
    as ((t & Ht & Htne) & (ty & Hty & Htyne) & (s & ss & Hss & Hinputs)).
  pose proof (Validate_other_fields fs d0) as Hframe.
  pose proof (Validate_ID fs d0) as HID.
  destruct (DataSet.Validate fs d0) as [d1 [err|]] eqn:Hval; [done|].
  apply Validate_None in Hval as [Hhyphen _].
  simpl in Hframe, HID.
  destruct Hframe as (HT & HR & HTy & HS & HP & HPa & HB).
  intros [= <-]. exists c. split; [done|].
  destruct (String.eqb_spec (DataSet.ID d1) EmptyString) as [Hid|Hid];
    cbn [DataSet.setID DataSet.Release];
    destruct (String.eqb_spec (DataSet.Release d1) EmptyString) as [Hrel|Hrel];
    simpl; rewrite ?HT, ?HTy, ?HS, ?HP, ?HPa, ?HB, ?Ht, ?Hty, ?Hss; simpl;
    split_and!; try done; try congruence.
  all: try (by destruct (Name p)).
Qed.

(** * Facts about the importer of Beats modules *)

Lemma hasMetricset_strings datasetName (names : list string) :
  beats.hasMetricset datasetName (beats.Str <$> names) =
  Some (bool_decide (datasetName ∈ names)).
Proof.
  induction names as [|s names IH]; csimpl; [done|].
  destruct (String.eqb_spec s datasetName) as [->|Hne].
  - by rewrite bool_decide_true by left.
  - rewrite IH. f_equal. apply bool_decide_ext.
    rewrite elem_of_cons. split; [auto|]. by intros [?|?].
Qed.

Lemma hasMetricset_true datasetName l :
  beats.hasMetricset datasetName l = Some true → beats.Str datasetName ∈ l.
Proof.
  induction l as [|[] l IH]; simpl; try done.
  destruct (String.eqb_spec s datasetName) as [->|Hne].
  - intros _. by left.
  - intros ?. right. auto.
Qed.

(** X14: An entry whose metricsets are a list of names, not empty, is
    related to the dataset exactly when the dataset is among them. *)
Theorem isConfigEntryRelatedToMetricset_names entry moduleName datasetName names :
  entry !! "metricsets" = Some (beats.Seq (beats.Str <$> names)) →
  names ≠ [] →
  beats.isConfigEntryRelatedToMetricset entry moduleName datasetName =
  Ok (bool_decide (datasetName ∈ names)).
Proof.
  intros Hm Hne. unfold beats.isConfigEntryRelatedToMetricset. rewrite Hm.
  rewrite bool_decide_false.
  - by rewrite hasMetricset_strings.
  - rewrite length_fmap. by destruct names.
Qed.

(** X15: An entry is found related only if it lists the dataset among its
    metricsets. *)
Theorem isConfigEntryRelatedToMetricset_true entry moduleName datasetName :
  beats.isConfigEntryRelatedToMetricset entry moduleName datasetName = Ok true →
  ∃ l, entry !! "metricsets" = Some (beats.Seq l) ∧ beats.Str datasetName ∈ l.
Proof.
  unfold beats.isConfigEntryRelatedToMetricset.
  destruct (entry !! "metricsets") as [[]|]; try done.
  case_bool_decide; [done|].
  destruct (beats.hasMetricset datasetName l) as [[]|] eqn:Hl; try done.
  intros _. exists l. split; [done|]. by apply hasMetricset_true.
Qed.

Lemma string_length_app (s1 s2 : string) :
  String.length (s1 +:+ s2) = (String.length s1 + String.length s2)%nat.
Proof. induction s1 as [|a s1 IH]; simpl; [done|]. by rewrite IH. Qed.

Lemma mergeFiles_length d paths acc merged :
  beats.mergeFiles d paths acc = Ok merged →
  (String.length acc + length paths ≤ String.length merged)%nat.
Proof.
  revert acc. induction paths as [|path paths IH]; intros acc; simpl.
  - intros [= ->]. lia.
  - assert (∀ s, String.length (acc +:+ s +:+ beats.newline)
                 = (String.length acc + String.length s + 1)%nat) as Hlen.
    { intros s. rewrite !string_length_app. simpl. lia. }
    destruct (beats.ReadFile d path) as [content|[|e]]; [| |done];
      intros Hm%IH; rewrite Hlen in Hm; simpl in *; lia.
Qed.

(** X16: The merged document is empty exactly when the glob found no
    configuration file: every file, even an empty or a vanished one,
    leaves a line break. *)
Theorem mergeMetaConfigFiles_empty d modulePath merged :
  beats.mergeMetaConfigFiles d modulePath = Ok merged →
  merged = EmptyString ↔
  beats.Glob d (filepath.Join [modulePath; "_meta"; "config*.yml"]) = Ok [].
Proof.
  unfold beats.mergeMetaConfigFiles.
  destruct (beats.Glob d _) as [paths|e]; [|done].
  intros Hm. split.
  - intros ->. apply mergeFiles_length in Hm. simpl in Hm.
    destruct paths; [done|simpl in Hm; lia].
  - intros [= ->]. simpl in Hm. by injection Hm.
Qed.

Section streams_facts.
Context {O : MapRange} {decoder : beats.Decoder}.

Lemma wrapVariable_lookup (aVar : beats.mapStr) (k : string) :
  beats.wrapVariable aVar !! k =
  (λ v, if String.prefix "os." k then beats.varWithDefault v else v)
    <$> aVar !! k.
Proof.
  unfold beats.wrapVariable.
  assert (∀ l (acc : beats.mapStr),
    foldl (λ acc k, match aVar !! k with
                    | Some v => if String.prefix "os." k
                                then <[k := beats.varWithDefault v]> acc
                                else <[k := v]> acc
                    | None => acc
                    end) acc l !! k =
    if decide (k ∈ l ∧ is_Some (aVar !! k))
    then (λ v, if String.prefix "os." k then beats.varWithDefault v else v)
           <$> aVar !! k
    else acc !! k) as Hfold.
  { induction l as [|k' l IH]; intros acc; cbn [foldl].
    - destruct (decide _) as [[Hin _]|_]; [|done]. by apply elem_of_nil in Hin.
    - rewrite IH. destruct (decide (k ∈ l ∧ is_Some (aVar !! k))) as [[Hin Hk]|Hno].
      + destruct (decide _) as [_|Hno]; [done|]. destruct Hno.
        split; [by right|done].
      + destruct (decide (k = k')) as [<-|Hne].
        * destruct (aVar !! k) as [v|] eqn:Hv.
          -- destruct (decide _) as [_|Hno']; [|destruct Hno'; split; [by left|done]].
             destruct (String.prefix "os." k); by rewrite lookup_insert_eq.
          -- destruct (decide _) as [[_ [? ?]]|_]; done.
        * destruct (decide _) as [[[?|?]%elem_of_cons ?]|_]; [done|by destruct Hno|].
          destruct (aVar !! k') as [v'|]; [|done].
          destruct (String.prefix "os." k'); by rewrite lookup_insert_ne. }
  rewrite Hfold. destruct (decide _) as [_|Hno]; [done|].
  rewrite lookup_empty. destruct (aVar !! k) as [v|] eqn:Hv; [|done].
  destruct Hno. split; [|done]. apply elem_of_range. by rewrite Hv.
Qed.

(** X17: Wrapping keeps the variables and their keys; the value under a
    key that begins with [os.] is wrapped, any other is left alone. *)
Theorem wrapVariablesWithDefault_lookup (mwvs : beats.manifestWithVars) :
  length (beats.Vars (beats.wrapVariablesWithDefault mwvs))
    = length (beats.Vars mwvs) ∧
  ∀ i k,
    beats.Vars (beats.wrapVariablesWithDefault mwvs) !! i ≫= (.!! k) =
    (λ v, if String.prefix "os." k then beats.varWithDefault v else v)
      <$> (beats.Vars mwvs !! i ≫= (.!! k)).
Proof.
  unfold beats.wrapVariablesWithDefault. simpl. split.
  - by rewrite length_fmap.
  - intros i k. rewrite list_lookup_fmap.
    destruct (beats.Vars mwvs !! i) as [aVar|]; simpl; [|done].
    apply wrapVariable_lookup.
Qed.

(** X18: Streams are built for logs and for metrics only, one at a time:
    a success is a single stream, with the input and the title of
    the kind that was asked for. *)
Theorem createStreams_one_stream d modulePath moduleName moduleTitle
    datasetName beatType ss :
  beats.createStreams d modulePath moduleName moduleTitle datasetName beatType
    = Ok ss →
  ∃ s, ss = [s] ∧
    ((beatType = "logs" ∧ beats.Input s = "logs" ∧
      beats.Title s = moduleTitle +:+ " " +:+ datasetName +:+ " logs") ∨
     (beatType = "metrics" ∧ beats.Input s = moduleName +:+ "/metrics" ∧
      beats.Title s = moduleTitle +:+ " " +:+ datasetName +:+ " metrics")).
Proof.
  unfold beats.createStreams.
  destruct (String.eqb_spec beatType "logs") as [->|_].
  - unfold beats.createLogStreams.
    destruct (beats.ReadFile d _) as [file|e]; [|done].
    destruct (beats.UnmarshalManifest file) as [mwv|e]; [|done].
    intros [= <-]. eexists. split; [done|]. left. done.
  - destruct (String.eqb_spec beatType "metrics") as [->|_]; [|done].
    unfold beats.createMetricStreams.
    destruct (beats.mergeMetaConfigFiles d modulePath) as [merged|e]; [|done].
    case_match; [|done].
    intros [= <-]. eexists. split; [done|]. right. done.
Qed.

(** X19: Without configuration files a metrics stream has no variables,
    and the decoder is not asked. *)
Theorem createMetricStreams_no_config d modulePath moduleName moduleTitle
    datasetName :
  beats.Glob d (filepath.Join [modulePath; "_meta"; "config*.yml"]) = Ok [] →
  beats.createMetricStreams d modulePath moduleName moduleTitle datasetName =
  Ok [ {| beats.Input := moduleName +:+ "/metrics";
          beats.Title := moduleTitle +:+ " " +:+ datasetName +:+ " metrics";
          beats.Description :=
            "Collect " +:+ moduleTitle +:+ " " +:+ datasetName +:+ " metrics";
          beats.StreamVars := [];
          beats.Dataset := EmptyString |} ].
Proof.
  intros Hglob. unfold beats.createMetricStreams, beats.mergeMetaConfigFiles.
  by rewrite Hglob.
Qed.

End streams_facts.

Lemma optionName_configOption n v :
  beats.optionName (beats.configOption n v) = n.
Proof.
  unfold beats.optionName, beats.configOption.
  by rewrite lookup_insert_ne, lookup_singleton_eq.
Qed.

#[local] Instance sameOptions_equiv : Equivalence sameOptions.
Proof.
  split.
  - by intros [??].
  - intros [??] [??] [??]. by split.
  - intros [??] [??] [??] [??] [??]. split; simpl in *; by etrans.
Qed.

#[local] Instance optionName_le_trans :
  Transitive (λ a b, String.le (beats.optionName a) (beats.optionName b)).
Proof. intros a b c ??. by etrans. Qed.

#[local] Instance optionName_le_total :
  Total (λ a b, String.le (beats.optionName a) (beats.optionName b)).
Proof. intros a b. apply (total String.le). Qed.

Lemma NoDup_fmap_eq {A B} (g : A → B) (l : list A) x y :
  NoDup (g <$> l) → x ∈ l → y ∈ l → g x = g y → x = y.
Proof.
  induction l as [|a l IH]; csimpl; intros Hnd Hx Hy Hg.
  - by apply elem_of_nil in Hx.
  - apply NoDup_cons in Hnd as [Ha Hnd].
    apply elem_of_cons in Hx as [->|Hx]; apply elem_of_cons in Hy as [->|Hy].
    + done.
    + destruct Ha. rewrite Hg. by apply list_elem_of_fmap_2.
    + destruct Ha. rewrite <-Hg. by apply list_elem_of_fmap_2.
    + by apply IH.
Qed.

(** Options with pairwise distinct names have one sorted order. *)
Lemma sortOptions_perm (l1 l2 : list beats.mapStr) :
  NoDup (beats.optionName <$> l1) → l1 ≡ₚ l2 →
  beats.sortOptions l1 = beats.sortOptions l2.
Proof.
  intros Hnd Hl. unfold beats.sortOptions.
  apply (StronglySorted_unique_strong
           (λ a b, String.le (beats.optionName a) (beats.optionName b))).
  - intros x1 x2 Hx1 Hx2 H12 H21.
    rewrite merge_sort_Permutation in Hx1, Hx2. rewrite <-Hl in Hx2.
    apply (NoDup_fmap_eq beats.optionName l1); [done..|].
    by apply (anti_symm String.le).
  - apply StronglySorted_merge_sort; apply _.
  - apply StronglySorted_merge_sort; apply _.
  - by rewrite !merge_sort_Permutation.
Qed.

Lemma sortOptions_sorted (l : list beats.mapStr) :
  StronglySorted String.le (beats.optionName <$> beats.sortOptions l).
Proof.
  apply (StronglySorted_fmap _
           (λ a b, String.le (beats.optionName a) (beats.optionName b)));
    [done|].
  apply StronglySorted_merge_sort; apply _.
Qed.

Section options_facts.
Context {O : MapRange} {decoder : beats.Decoder}.

Lemma addOption_accepts related datasetName flatEntry st name :
  beats.addOption related datasetName flatEntry st name =
  match accepts related datasetName flatEntry st.2 name with
  | Some value =>
      (st.1 ++ [beats.configOption name value], <[name := true]> st.2)
  | None => st
  end.
Proof.
  unfold beats.addOption, accepts, qualifies.
  destruct (flatEntry !! name) as [value|]; [|done].
  destruct (beats.shouldConfigOptionBeIgnored name value); simpl; [done|].
  destruct (st.2 !! name) as [b|] eqn:Hfound.
  - rewrite bool_decide_true by eauto.
    rewrite bool_decide_false by done. by rewrite andb_false_r.
  - rewrite bool_decide_false by (by intros [??]).
    rewrite bool_decide_true by done. rewrite andb_true_r.
    by destruct (related || _).
Qed.

Lemma addOption_same related datasetName flatEntry st1 st2 name :
  sameOptions st1 st2 →
  sameOptions (beats.addOption related datasetName flatEntry st1 name)
              (beats.addOption related datasetName flatEntry st2 name).
Proof.
  intros [Hopts Hfound]. rewrite !addOption_accepts, Hfound.
  destruct (accepts _ _ _ _ _); [|by split].
  split; simpl; [by rewrite Hopts|done].
Qed.

Lemma accepts_insert related datasetName flatEntry found n1 n2 :
  n1 ≠ n2 →
  accepts related datasetName flatEntry (<[n1 := true]> found) n2 =
  accepts related datasetName flatEntry found n2.
Proof. intros. unfold accepts. by rewrite lookup_insert_ne. Qed.

Lemma addOption_swap related datasetName flatEntry st n1 n2 :
  sameOptions
    (beats.addOption related datasetName flatEntry
       (beats.addOption related datasetName flatEntry st n1) n2)
    (beats.addOption related datasetName flatEntry
       (beats.addOption related datasetName flatEntry st n2) n1).
Proof.
  destruct (decide (n1 = n2)) as [->|Hne]; [done|].
  rewrite !addOption_accepts.
  destruct (accepts related datasetName flatEntry st.2 n1) as [v1|] eqn:H1,
           (accepts related datasetName flatEntry st.2 n2) as [v2|] eqn:H2;
    simpl; rewrite ?accepts_insert, ?H1, ?H2 by done; simpl;
    rewrite ?accepts_insert, ?H1, ?H2 by done; try done.
  split; simpl.
  - rewrite <-!app_assoc. f_equiv. simpl. apply perm_swap.
  - by apply insert_insert_ne.
Qed.

Lemma foldl_addOption_same related datasetName flatEntry l st1 st2 :
  sameOptions st1 st2 →
  sameOptions (foldl (beats.addOption related datasetName flatEntry) st1 l)
              (foldl (beats.addOption related datasetName flatEntry) st2 l).
Proof.
  revert st1 st2. induction l as [|n l IH]; intros st1 st2 Hst; simpl; [done|].
  by apply IH, addOption_same.
Qed.

(** The options of one entry may be visited in any order. *)
Lemma foldl_addOption_perm related datasetName flatEntry l1 l2 st1 st2 :
  l1 ≡ₚ l2 → sameOptions st1 st2 →
  sameOptions (foldl (beats.addOption related datasetName flatEntry) st1 l1)
              (foldl (beats.addOption related datasetName flatEntry) st2 l2).
Proof.
  intros Hl. revert st1 st2.
  induction Hl as [|n l1 l2 _ IH|n1 n2 l|l1 l2 l3 _ IH1 _ IH2];
    intros st1 st2 Hst; simpl.
  - done.
  - by apply IH, addOption_same.
  - apply foldl_addOption_same. etrans; [apply addOption_swap|].
    by do 2 apply addOption_same.
  - etrans; [by apply IH1|]. by apply IH2.
Qed.

Lemma addOption_inv Q related datasetName flatEntry st name :
  (∀ n v, flatEntry !! n = Some v →
          qualifies related datasetName n v = true → Q n v) →
  optionsInv Q st →
  optionsInv Q (beats.addOption related datasetName flatEntry st name).
Proof.
  intros HQ (Hnd & Hfound & Hall). rewrite addOption_accepts.
  destruct (accepts _ _ _ _ _) as [value|] eqn:Hacc; [|done].
  unfold accepts in Hacc.
  destruct (flatEntry !! name) as [v|] eqn:Hv; [|done].
  destruct (qualifies related datasetName name v) eqn:Hq; [|done].
  case_bool_decide as Hnone; [|done]. simpl in Hacc. simplify_eq.
  assert (name ∉ beats.optionName <$> st.1) as Hfresh.
  { intros Hin%Hfound. rewrite Hnone in Hin. by destruct Hin. }
  split_and!; simpl.
  - rewrite fmap_app. simpl. rewrite optionName_configOption.
    apply NoDup_app. split_and!; [done| |apply NoDup_singleton].
    intros n Hn ->%list_elem_of_singleton. done.
  - intros n. rewrite fmap_app, elem_of_app. simpl.
    rewrite optionName_configOption, list_elem_of_singleton, <-Hfound.
    destruct (decide (name = n)) as [->|Hne].
    + rewrite lookup_insert_eq. split; eauto.
    + rewrite lookup_insert_ne by done. split; [auto|]. by intros [?|?].
  - apply Forall_app. split; [done|]. apply Forall_singleton. eauto.
Qed.

Lemma foldl_addOption_inv Q related datasetName flatEntry l st :
  (∀ n v, flatEntry !! n = Some v →
          qualifies related datasetName n v = true → Q n v) →
  optionsInv Q st →
  optionsInv Q (foldl (beats.addOption related datasetName flatEntry) st l).
Proof.
  intros HQ. revert st. induction l as [|n l IH]; intros st Hst; simpl; [done|].
  by apply IH, addOption_inv.
Qed.

End options_facts.

(** The options collected are, for every order of the visits, the
    same up to their order. *)
Lemma collectOptions_order (O1 O2 : MapRange) `{beats.Decoder}
    moduleName datasetName moduleConfig st1 st2 :
  sameOptions st1 st2 →
  match @beats.collectOptions O1 _ moduleName datasetName moduleConfig st1,
        @beats.collectOptions O2 _ moduleName datasetName moduleConfig st2 with
  | Ok o1, Ok o2 => o1 ≡ₚ o2
  | Err e1, Err e2 => e1 = e2
  | _, _ => False
  end.
Proof.
  revert st1 st2. induction moduleConfig as [|e mc IH]; intros st1 st2 Hst; simpl.
  - by destruct Hst.
  - destruct (beats.isConfigEntryRelatedToMetricset _ _ _) as [related|[]];
      try done.
    apply IH. apply foldl_addOption_perm; [|done].
    by rewrite !range_perm.
Qed.

Lemma qualifies_true related datasetName n v :
  qualifies related datasetName n v = true →
  v ≠ beats.Nil ∧ (n ∉ beats.ignoredConfigOptions) ∧
  (related = true ∨ String.prefix (datasetName +:+ ".") n = true).
Proof.
  unfold qualifies, beats.shouldConfigOptionBeIgnored.
  intros [Hign Hrel]%andb_prop. apply negb_true_iff in Hign.
  apply orb_prop in Hrel. split_and!; [|
    |done].
  - by intros ->.
  - intros Hin. destruct v; try done; by rewrite bool_decide_true in Hign.
Qed.

Lemma optionsInv_nil Q : optionsInv Q ([], ∅).
Proof.
  split_and!; simpl.
  - constructor.
  - intros n. rewrite lookup_empty. split; [by intros [??]|].
    intros Hin. by apply elem_of_nil in Hin.
  - constructor.
Qed.

Section metric_facts.
Context {O : MapRange} {decoder : beats.Decoder}.

Lemma collectOptions_inv (Q : string → beats.Value → Prop)
    moduleName datasetName moduleConfig st opts :
  (∀ e related n v,
     e ∈ moduleConfig →
     beats.isConfigEntryRelatedToMetricset (beats.flatten e)
       moduleName datasetName = Ok related →
     beats.flatten e !! n = Some v →
     qualifies related datasetName n v = true → Q n v) →
  optionsInv Q st →
  beats.collectOptions moduleName datasetName moduleConfig st = Ok opts →
  NoDup (beats.optionName <$> opts) ∧
  Forall (λ o, ∃ n v, o = beats.configOption n v ∧ Q n v) opts.
Proof.
  revert st. induction moduleConfig as [|e mc IH]; intros st HQ Hst; simpl.
  - intros [= <-]. by destruct Hst as (? & _ & ?).
  - destruct (beats.isConfigEntryRelatedToMetricset _ _ _) as [related|err]
      eqn:Hrel; [|by destruct err].
    apply IH.
    + intros e' related' n v He'. apply HQ. by right.
    + apply foldl_addOption_inv; [|done].
      intros n v. apply (HQ e related); [by left|done].
Qed.

(** X20: The variables of a metrics stream come in ascending order of
    their names, no name twice; each is a map of a name and a default
    value, the value is not nil and the name is none of the ignored
    ones. *)
Theorem createMetricStreams_vars d modulePath moduleName moduleTitle
    datasetName ss :
  beats.createMetricStreams d modulePath moduleName moduleTitle datasetName
    = Ok ss →
  ∃ s, ss = [s] ∧
    StronglySorted String.le (beats.optionName <$> beats.StreamVars s) ∧
    NoDup (beats.optionName <$> beats.StreamVars s) ∧
    Forall (λ o, ∃ n v, o = beats.configOption n v ∧ v ≠ beats.Nil ∧
                        (n ∉ beats.ignoredConfigOptions))
           (beats.StreamVars s).
Proof.
  unfold beats.createMetricStreams.
  destruct (beats.mergeMetaConfigFiles d modulePath) as [merged|e]; [|done].
  case_bool_decide.
  - destruct (beats.UnmarshalConfig merged) as [mc|e]; [|done].
    destruct (beats.collectOptions _ _ _ _) as [opts|e] eqn:Hopts; [|done].
    intros [= <-]. eexists. split; [done|]. simpl.
    apply (collectOptions_inv
             (λ n v, v ≠ beats.Nil ∧ (n ∉ beats.ignoredConfigOptions)))
      in Hopts as [Hnd Hall]; [| |apply optionsInv_nil].
    + split_and!.
      * apply sortOptions_sorted.
      * unfold beats.sortOptions. by rewrite merge_sort_Permutation.
      * unfold beats.sortOptions. by rewrite merge_sort_Permutation.
    + intros e related n v _ _ _ Hq.
      by destruct (qualifies_true _ _ _ _ Hq) as (? & ? & _).
  - intros [= <-]. eexists. split; [done|]. simpl.
    split_and!; constructor.
Qed.

(** X21: Every variable of a metrics stream is an option of an entry of
    the decoded configuration, flattened, and that entry lists the
    dataset among its metricsets or the name of the option begins
    with the name of the dataset and a dot. *)
Theorem createMetricStreams_provenance d modulePath moduleName moduleTitle
    datasetName ss s o :
  beats.createMetricStreams d modulePath moduleName moduleTitle datasetName
    = Ok ss →
  s ∈ ss → o ∈ beats.StreamVars s →
  ∃ merged moduleConfig e n v,
    beats.mergeMetaConfigFiles d modulePath = Ok merged ∧
    beats.UnmarshalConfig merged = Ok moduleConfig ∧
    e ∈ moduleConfig ∧ beats.flatten e !! n = Some v ∧
    o = beats.configOption n v ∧
    (beats.isConfigEntryRelatedToMetricset (beats.flatten e)
       moduleName datasetName = Ok true
     ∨ String.prefix (datasetName +:+ ".") n = true).
Proof.
  unfold beats.createMetricStreams.
  destruct (beats.mergeMetaConfigFiles d modulePath) as [merged|err]; [|done].
  case_bool_decide.
  - destruct (beats.UnmarshalConfig merged) as [mc|err] eqn:Hmc; [|done].
    destruct (beats.collectOptions _ _ _ _) as [opts|err] eqn:Hopts; [|done].
    intros [= <-] ->%list_elem_of_singleton Ho. simpl in Ho.
    unfold beats.sortOptions in Ho. rewrite merge_sort_Permutation in Ho.
    apply (collectOptions_inv
             (λ n v, ∃ e, e ∈ mc ∧ beats.flatten e !! n = Some v ∧
                (beats.isConfigEntryRelatedToMetricset (beats.flatten e)
                   moduleName datasetName = Ok true
                 ∨ String.prefix (datasetName +:+ ".") n = true)))
      in Hopts as [_ Hall]; [| |apply optionsInv_nil].
    + rewrite Forall_forall in Hall.
      destruct (Hall o Ho) as (n & v & -> & e & He & Hv & Hrel).
      exists merged, mc, e, n, v. done.
    + intros e related n v He Hrel Hv Hq. exists e.
      split; [done|]. split; [done|].
      destruct (qualifies_true _ _ _ _ Hq) as (_ & _ & [->|Hp]); auto.
  - intros [= <-] ->%list_elem_of_singleton Ho. simpl in Ho.
    by apply elem_of_nil in Ho.
Qed.

End metric_facts.

Lemma wrapVariable_order (O1 O2 : MapRange) (aVar : beats.mapStr) :
  @beats.wrapVariable O1 aVar = @beats.wrapVariable O2 aVar.
Proof.
  apply map_eq. intros k.
  by rewrite (wrapVariable_lookup (O:=O1)), (wrapVariable_lookup (O:=O2)).
Qed.

(** X22: The streams do not depend on the order in which the maps are
    walked. *)
Theorem createStreams_order (O1 O2 : MapRange) `{beats.Decoder}
    d modulePath moduleName moduleTitle datasetName beatType :
  @beats.createStreams O1 _ d modulePath moduleName moduleTitle datasetName
    beatType =
  @beats.createStreams O2 _ d modulePath moduleName moduleTitle datasetName
    beatType.
Proof.
  unfold beats.createStreams.
  destruct (String.eqb beatType "logs").
  - unfold beats.createLogStreams.
    destruct (beats.ReadFile d _) as [file|e]; [|done].
    destruct (beats.UnmarshalManifest file) as [mwv|e]; [|done].
    unfold beats.wrapVariablesWithDefault. simpl. do 3 f_equal.
    apply list_fmap_ext. intros _ aVar _. apply wrapVariable_order.
  - destruct (String.eqb beatType "metrics"); [|done].
    unfold beats.createMetricStreams.
    destruct (beats.mergeMetaConfigFiles d modulePath) as [merged|e]; [|done].
    case_bool_decide; [|done].
    destruct (beats.UnmarshalConfig merged) as [mc|e]; [|done].
    pose proof (collectOptions_order O1 O2 moduleName datasetName mc
                  ([], ∅) ([], ∅) (reflexivity _)) as Hord.
    destruct (@beats.collectOptions O1 _ _ _ _ _) as [o1|e1] eqn:H1,
             (@beats.collectOptions O2 _ _ _ _ _) as [o2|e2] eqn:H2;
      [|done|done|].
    + apply (collectOptions_inv (O:=O1) (λ _ _, True)) in H1 as [Hnd _];
        [|done|apply optionsInv_nil].
      by rewrite (sortOptions_perm o1 o2 Hnd Hord).
    + by rewrite Hord.
Qed.

(** * The further facts at work on sample inputs *)

Lemma collect_all_versions_witness :
  is_Some (@collect trie_range allParams [mysql_1_2_0; mysql_1_0_0]
             !! "mysql" ≫= (.!! "1.0.0")).
Proof.
  apply (collect_all_versions (O:=trie_range) allParams
           [mysql_1_2_0; mysql_1_0_0] "mysql" "1.0.0"); [reflexivity|].
  exists mysql_1_0_0. split_and!; [|reflexivity..].
  apply list_elem_of_further, list_elem_of_here.
Defined.

Lemma collect_newest_survivors_witness :
  @collect trie_range zeroParams [mysql_1_2_0; mysql_1_0_0]
    !! "mysql" ≫= (.!! "1.2.0") = Some mysql_1_2_0.
Proof.
  apply (collect_newest_survivors (O:=trie_range) zeroParams
           [mysql_1_2_0; mysql_1_0_0] "mysql" "1.2.0" mysql_1_2_0);
    [reflexivity|].
  exists [], [mysql_1_0_0]. split_and!; [reflexivity..|].
  intros q ->%list_elem_of_singleton _ _. split; [reflexivity|discriminate].
Defined.

Lemma collect_oldest_first_witness :
  ∃ l1 q l2,
    [mysql_1_0_0; mysql_1_2_0] = l1 ++ q :: l2 ∧
    ({[ "1.2.0" := mysql_1_2_0 ]} : gmap string Package)
      = {[ Version q := q ]} ∧
    keeps zeroParams q = true ∧ Name q = "mysql" ∧
    ∀ p, p ∈ l2 → keeps zeroParams p = true → Name p ≠ "mysql".
Proof.
  apply (collect_oldest_first (O:=trie_range) zeroParams
           [mysql_1_0_0; mysql_1_2_0] "mysql" {[ "1.2.0" := mysql_1_2_0 ]});
    [reflexivity| |vm_compute; reflexivity].
  intros l1 p l2 q l3 Heq _.
  destruct l1 as [|? [|? [|? ?]]], l2 as [|? [|? ?]]; simplify_eq/=.
  reflexivity.
Defined.

Lemma packageRecords_stored_witness :
  Forall noSeparator [mysql_1_0_0] ∧
  @project samplePaths mysql_1_0_0 ∈
    @packageRecords trie_range samplePaths
      (@collect trie_range zeroParams [mysql_1_0_0]).
Proof.
  assert (Forall noSeparator [mysql_1_0_0]) as Hsep by (repeat constructor).
  split; [exact Hsep|].
  apply (packageRecords_stored (O:=trie_range) (paths:=samplePaths)
           zeroParams [mysql_1_0_0] _ Hsep).
  exists "mysql", "1.0.0", mysql_1_0_0. split; reflexivity.
Defined.

Lemma packageRecords_filtered_witness :
  ∃ p, p ∈ [nginx_2_0_0; mysql_1_0_0] ∧
       @project samplePaths mysql_1_0_0 = @project samplePaths p ∧
       (Internal p = true → internal mysqlParams = true) ∧
       (category mysqlParams ≠ EmptyString →
        HasCategory p (category mysqlParams) = true) ∧
       (∀ k, kibanaVersion mysqlParams = Some k → HasKibanaVersion p k = true) ∧
       (packageQuery mysqlParams ≠ EmptyString → Name p = packageQuery mysqlParams).
Proof.
  apply (packageRecords_filtered (O:=trie_range) (paths:=samplePaths)
           mysqlParams [nginx_2_0_0; mysql_1_0_0]).
  - repeat constructor.
  - vm_compute. apply list_elem_of_here.
Defined.

Lemma packageRecords_distinct_witness :
  NoDup (compositeKey <$>
           @packageRecords trie_range samplePaths
             (@collect trie_range allParams
                [mysql_1_2_0; nginx_2_0_0; mysql_1_0_0])).
Proof.
  apply (packageRecords_distinct (O:=trie_range) (paths:=samplePaths)
           allParams [mysql_1_2_0; nginx_2_0_0; mysql_1_0_0]).
  repeat constructor.
Defined.

Lemma readParams_other_parameter_witness :
  readParams (<[ "experimental" := ["true"] ]> {[ "package" := ["mysql"] ]})
  = readParams {[ "package" := ["mysql"] ]}.
Proof.
  apply (readParams_other_parameter {[ "package" := ["mysql"] ]}
           "experimental" ["true"]).
  vm_compute. intros Hin.
  repeat (apply elem_of_cons in Hin as [Hin|Hin]; [discriminate|]).
  by apply elem_of_nil in Hin.
Defined.


Lemma Validate_passed_witness :
  Strings.Contains (DataSet.ID accessDataSet) "-" = false.
Proof.
  apply (Validate_passed
           (sampleDisk "/packages/nginx-1.0.0/dataset/access"
              ["access.yml"; "custom.json"] (sampleConfig None))
           accessDataSet accessDataSet).
  vm_compute. reflexivity.
Defined.

Lemma NewDataset_built_witness :
  ∃ c,
    NewConfigWithFile
      (sampleDisk "/packages/nginx-2.0.0/dataset/access" [] (sampleConfig None))
      (filepath.Join ["/packages/nginx-2.0.0/dataset/access"; "manifest.yml"])
    = Some c ∧
    DataSet.Package
      (sampleDataSet "nginx.access" "/packages/nginx-2.0.0/dataset/access")
    = default (Name nginx_2_0_0) (ucfg.package c) ∧
    DataSet.Path
      (sampleDataSet "nginx.access" "/packages/nginx-2.0.0/dataset/access")
    = default (filepath.Base "/packages/nginx-2.0.0/dataset/access")
        (ucfg.path c) ∧
    DataSet.BasePath
      (sampleDataSet "nginx.access" "/packages/nginx-2.0.0/dataset/access")
    = default "/packages/nginx-2.0.0/dataset/access" (ucfg.basepath c) ∧
    DataSet.ID
      (sampleDataSet "nginx.access" "/packages/nginx-2.0.0/dataset/access")
    ≠ EmptyString ∧
    DataSet.Release
      (sampleDataSet "nginx.access" "/packages/nginx-2.0.0/dataset/access")
    ≠ EmptyString ∧
    DataSet.Title
      (sampleDataSet "nginx.access" "/packages/nginx-2.0.0/dataset/access")
    ≠ EmptyString ∧
    DataSet.Type_
      (sampleDataSet "nginx.access" "/packages/nginx-2.0.0/dataset/access")
    ≠ EmptyString ∧
    DataSet.Streams
      (sampleDataSet "nginx.access" "/packages/nginx-2.0.0/dataset/access")
    ≠ [] ∧
    Forall (λ s, Stream.Input s ≠ EmptyString)
      (DataSet.Streams
         (sampleDataSet "nginx.access" "/packages/nginx-2.0.0/dataset/access")) ∧
    (Strings.Contains
       (DataSet.ID
          (sampleDataSet "nginx.access" "/packages/nginx-2.0.0/dataset/access"))
       "-" = true →
     DataSet.ID
       (sampleDataSet "nginx.access" "/packages/nginx-2.0.0/dataset/access")
     = Name nginx_2_0_0 +:+ "." +:+
       filepath.Base "/packages/nginx-2.0.0/dataset/access").
Proof.
  apply (NewDataset_built
           (sampleDisk "/packages/nginx-2.0.0/dataset/access" []
              (sampleConfig None))
           "/packages/nginx-2.0.0/dataset/access" nginx_2_0_0
           (sampleDataSet "nginx.access" "/packages/nginx-2.0.0/dataset/access")).
  vm_compute. reflexivity.
Defined.

Lemma NewDataset_explicit_hyphen_witness :
  NewDataset
    (sampleDisk "/packages/nginx-2.0.0/dataset/access" []
       (sampleConfig (Some "my-dataset")))
    "/packages/nginx-2.0.0/dataset/access" nginx_2_0_0
  = Err (DataSet.BuildingDataset
           (filepath.Base "/packages/nginx-2.0.0/dataset/access")
           (Name nginx_2_0_0) (DataSet.InvalidIdentifier "my-dataset")).
Proof.
  apply (NewDataset_explicit_hyphen
           (sampleDisk "/packages/nginx-2.0.0/dataset/access" []
              (sampleConfig (Some "my-dataset")))
           "/packages/nginx-2.0.0/dataset/access" nginx_2_0_0
           (sampleConfig (Some "my-dataset")) "my-dataset" []);
    reflexivity.
Defined.

Lemma isConfigEntryRelatedToMetricset_names_witness :
  beats.isConfigEntryRelatedToMetricset statusEntry "mysql" "status"
  = Ok (bool_decide ("status" ∈ ["status"])).
Proof.
  apply (isConfigEntryRelatedToMetricset_names statusEntry "mysql" "status"
           ["status"]); [reflexivity|discriminate].
Defined.

Lemma isConfigEntryRelatedToMetricset_true_witness :
  ∃ l, statusEntry !! "metricsets" = Some (beats.Seq l) ∧ beats.Str "status" ∈ l.
Proof.
  apply (isConfigEntryRelatedToMetricset_true statusEntry "mysql" "status").
  reflexivity.
Defined.

Lemma mergeMetaConfigFiles_empty_witness :
  EmptyString = EmptyString ↔
  beats.Glob (sampleModule []) (filepath.Join ["mysql"; "_meta"; "config*.yml"])
  = Ok [].
Proof.
  apply (mergeMetaConfigFiles_empty (sampleModule []) "mysql" EmptyString).
  reflexivity.
Defined.

Lemma createStreams_one_stream_witness :
  ∃ s, [statusStream] = [s] ∧
    (("metrics" = "logs" ∧ beats.Input s = "logs" ∧
      beats.Title s = "MySQL" +:+ " " +:+ "status" +:+ " logs") ∨
     ("metrics" = "metrics" ∧ beats.Input s = "mysql" +:+ "/metrics" ∧
      beats.Title s = "MySQL" +:+ " " +:+ "status" +:+ " metrics")).
Proof.
  apply (createStreams_one_stream (O:=trie_range) (decoder:=sampleDecoder)
           (sampleModule ["mysql/_meta/config.yml"])
           "mysql" "mysql" "MySQL" "status" "metrics" [statusStream]).
  vm_compute. reflexivity.
Defined.

Lemma createMetricStreams_no_config_witness :
  @beats.createMetricStreams trie_range sampleDecoder (sampleModule [])
    "mysql" "mysql" "MySQL" "status"
  = Ok [ {| beats.Input := "mysql" +:+ "/metrics";
            beats.Title := "MySQL" +:+ " " +:+ "status" +:+ " metrics";
            beats.Description :=
              "Collect " +:+ "MySQL" +:+ " " +:+ "status" +:+ " metrics";
            beats.StreamVars := [];
            beats.Dataset := EmptyString |} ].
Proof.
  apply (createMetricStreams_no_config (O:=trie_range) (decoder:=sampleDecoder)
           (sampleModule []) "mysql" "mysql" "MySQL" "status").
  reflexivity.
Defined.

Lemma createMetricStreams_vars_witness :
  ∃ s, [statusStream] = [s] ∧
    StronglySorted String.le (beats.optionName <$> beats.StreamVars s) ∧
    NoDup (beats.optionName <$> beats.StreamVars s) ∧
    Forall (λ o, ∃ n v, o = beats.configOption n v ∧ v ≠ beats.Nil ∧
                        (n ∉ beats.ignoredConfigOptions))
           (beats.StreamVars s).
Proof.
  apply (createMetricStreams_vars (O:=trie_range) (decoder:=sampleDecoder)
           (sampleModule ["mysql/_meta/config.yml"])
           "mysql" "mysql" "MySQL" "status" [statusStream]).
  vm_compute. reflexivity.
Defined.

Lemma createMetricStreams_provenance_witness :
  ∃ merged moduleConfig e n v,
    beats.mergeMetaConfigFiles (sampleModule ["mysql/_meta/config.yml"]) "mysql"
      = Ok merged ∧
    @beats.UnmarshalConfig sampleDecoder merged = Ok moduleConfig ∧
    e ∈ moduleConfig ∧ @beats.flatten sampleDecoder e !! n = Some v ∧
    beats.configOption "period" (beats.Str "10s") = beats.configOption n v ∧
    (beats.isConfigEntryRelatedToMetricset (@beats.flatten sampleDecoder e)
       "mysql" "status" = Ok true
     ∨ String.prefix ("status" +:+ ".") n = true).
Proof.
  apply (createMetricStreams_provenance (O:=trie_range) (decoder:=sampleDecoder)
           (sampleModule ["mysql/_meta/config.yml"])
           "mysql" "mysql" "MySQL" "status" [statusStream] statusStream).
  - vm_compute. reflexivity.
  - apply list_elem_of_here.
  - apply list_elem_of_further, list_elem_of_here.
Defined.
